(** * Chunking and vector store of ai_helpdesk

    Shallow embedding of [ai_helpdesk/utils/chunking.py],
    [ai_helpdesk/storage/vector_store.py] and [ai_helpdesk/models.py].

    A Python [str] is modelled as the list of its code points ([pystr]);
    Python integers as [Z]. *)

From Stdlib Require Import String Ascii.
From Stdlib Require Import List ZArith Lia Arith.
From Stdlib Require Import Sorting Permutation.
From Stdlib Require Import Floats.SpecFloat.
Import ListNotations.
Open Scope Z_scope.

(** Python [str]: a sequence of Unicode code points. *)
Definition pystr := list nat.

(** A Python string literal written in ASCII. *)
Definition lit (s : String.string) : pystr :=
  map Ascii.nat_of_ascii (String.list_ascii_of_string s).
Arguments lit s%_string.

(** ** Python slicing [s[i:j]] on a sequence, with negative indices
    counted from the end and every bound clamped to [0, len(s)]. *)
Section Slice.
Context {A : Type}.

Definition py_clamp (len i : Z) : Z :=
  if i <? 0 then Z.max 0 (i + len) else Z.min i len.

Definition py_slice (s : list A) (i j : Z) : list A :=
  let len := Z.of_nat (length s) in
  let i' := py_clamp len i in
  let j' := py_clamp len j in
  if j' <=? i' then []
  else firstn (Z.to_nat (j' - i')) (skipn (Z.to_nat i') s).

(** [a[:k]] *)
Definition py_take (k : Z) (s : list A) : list A := py_slice s 0 k.

End Slice.

(** ** [utils/chunking.py] *)
Module Chunking.

(** The [while start < len(text)] loop of [_split_by_chars]. The loop is
    run on a fuel counter: [None] means the fuel ran out while the loop
    condition still held, i.e. the loop had not stopped. *)
Fixpoint chars_loop (fuel : nat) (text : pystr) (start chunk_size step : Z)
  : option (list pystr) :=
  let len := Z.of_nat (length text) in
  if start <? len then
    match fuel with
    | O => None
    | S fuel' =>
        let end_ := Z.min len (start + chunk_size) in
        match chars_loop fuel' text (start + step) chunk_size step with
        | Some rest => Some (py_slice text start end_ :: rest)
        | None => None
        end
    end
  else Some [].

Definition split_step (chunk_size chunk_overlap : Z) : Z :=
  Z.max 1 (chunk_size - chunk_overlap).

(** [_split_by_chars(text, chunk_size, chunk_overlap)], with as much fuel
    as the text has characters. *)
Definition _split_by_chars (text : pystr) (chunk_size chunk_overlap : Z)
  : option (list pystr) :=
  chars_loop (length text) text 0 chunk_size (split_step chunk_size chunk_overlap).

(** [chunk_text] when [tiktoken] is unavailable (or raises): the
    character strategy. *)
Definition chunk_text (text : pystr) (chunk_size chunk_overlap : Z)
  : option (list pystr) :=
  match text with
  | [] => Some []
  | _ => _split_by_chars text chunk_size chunk_overlap
  end.

(** A [tiktoken] encoding. [encode] raises (modelled by [None]) on a text
    holding a special token such as ["<|endoftext|>"]; [decode] replaces
    what it cannot decode and does not raise. *)
Record Encoding := mkEncoding {
  encode : pystr -> option (list nat);
  decode : list nat -> pystr
}.

(** [_split_by_tokens]: the window loop of [_split_by_chars] run over the
    token list, each window decoded. [None]: an exception was raised. *)
Definition _split_by_tokens (encoding : Encoding) (text : pystr)
  (chunk_size chunk_overlap : Z) : option (option (list pystr)) :=
  match encode encoding text with
  | None => None
  | Some tokens =>
      Some (option_map (map (decode encoding))
              (chars_loop (length tokens) tokens 0 chunk_size (split_step chunk_size chunk_overlap)))
  end.

(** [chunk_text] with the module-level [tiktoken]: [None] when the import
    failed, [Some None] when [tiktoken.get_encoding("cl100k_base")] raises
    (e.g. its data file cannot be fetched), [Some (Some e)] otherwise. An
    exception of [_split_by_tokens] falls back to the character strategy. *)
Definition chunk_text_tk (tiktoken : option (option Encoding)) (text : pystr)
  (chunk_size chunk_overlap : Z) : option (list pystr) :=
  match text with
  | [] => Some []
  | _ =>
      match tiktoken with
      | Some (Some encoding) =>
          match _split_by_tokens encoding text chunk_size chunk_overlap with
          | Some chunks => chunks
          | None => _split_by_chars text chunk_size chunk_overlap
          end
      | _ => _split_by_chars text chunk_size chunk_overlap
      end
  end.

(** *** [enumerate_chunks] and the Python builtins it uses *)

(** The [w] last decimal digits of [n >= 0], as code points (['0'] is 48). *)
Fixpoint pad_digits (w : nat) (n : Z) : pystr :=
  match w with
  | O => []
  | S w' => pad_digits w' (n / 10) ++ [Z.to_nat (48 + n mod 10)]
  end.

Fixpoint ndigits_aux (fuel : nat) (n : Z) : nat :=
  match fuel with
  | O => 1%nat
  | S f => if n <? 10 then 1%nat else S (ndigits_aux f (n / 10))
  end.

(** Number of decimal digits of [n >= 0] ([len(str(n))]); a number has
    fewer decimal digits than binary ones, which bounds the recursion. *)
Definition ndigits (n : Z) : nat := ndigits_aux (S (Z.to_nat (Z.log2 n))) n.

(** [str(n)] for a Python [int]. *)
Definition py_str_int (n : Z) : pystr :=
  if n <? 0 then 45%nat :: pad_digits (ndigits (- n)) (- n)
  else pad_digits (ndigits n) n.

(** [s.zfill(w)]: left-pad with ['0'] to width [w], after a leading sign. *)
Definition zfill (s : pystr) (w : nat) : pystr :=
  match s with
  | c :: rest =>
      if (Nat.eqb c 43 || Nat.eqb c 45)%bool
      then c :: repeat 48%nat (w - length s) ++ rest
      else repeat 48%nat (w - length s) ++ s
  | [] => repeat 48%nat w
  end.

Fixpoint ceil_log10_aux (fuel : nat) (k m : Z) : Z :=
  match fuel with
  | O => k
  | S f => if m <=? 10 ^ k then k else ceil_log10_aux f (k + 1) m
  end.

(** [math.ceil(math.log10(m))] for an integer [m >= 1], computed exactly:
    the least [k >= 0] with [m <= 10^k]. (CPython's [log10] is exact on
    powers of ten, and its result rounds to an integer below the true
    value only from [m = 10^15 + 1] on, far beyond any list length.) *)
Definition ceil_log10 (m : Z) : Z :=
  ceil_log10_aux (S (Z.to_nat (Z.log2 m))) 0 m.

(** [total_digits] in [enumerate_chunks]. *)
Definition total_digits {A} (chunk_list : list A) : nat :=
  match chunk_list with
  | [] => 4%nat
  | _ => Nat.max 4 (Z.to_nat (ceil_log10 (Z.of_nat (length chunk_list) + 1)))
  end.

(** [enumerate_chunks(chunks, prefix)]:
    [[f"{prefix}-{str(idx).zfill(total_digits)}" for idx in 1..len]]. *)
Definition enumerate_chunks {A} (chunks : list A) (prefix : pystr) : list pystr :=
  let w := total_digits chunks in
  map (fun idx => prefix ++ [45%nat] ++ zfill (py_str_int (Z.of_nat idx)) w)
      (seq 1 (length chunks)).

(** Python's [<] on [str]: lexicographic on code points, a proper prefix
    being smaller. *)
Fixpoint str_lt (a b : pystr) : bool :=
  match a, b with
  | [], [] => false
  | [], _ :: _ => true
  | _ :: _, [] => false
  | x :: a', y :: b' =>
      if Nat.ltb x y then true else if Nat.ltb y x then false else str_lt a' b'
  end.

End Chunking.

(** ** [models.py] *)
Module Models.

(** Metadata values: the JSON scalars (the ingestion code stores [str]
    values: url, title, path). *)
Inductive pyval :=
| PyStr (s : pystr)
| PyInt (z : Z)
| PyBool (b : bool)
| PyNone.

(** A [Dict[str, Any]] as its list of items in insertion order. *)
Definition pydict := list (pystr * pyval).

Fixpoint pystr_eqb (a b : pystr) : bool :=
  match a, b with
  | [], [] => true
  | x :: a', y :: b' => Nat.eqb x y && pystr_eqb a' b'
  | _, _ => false
  end.

(** [d.get(k)] *)
Fixpoint dict_get (d : pydict) (k : pystr) : option pyval :=
  match d with
  | [] => None
  | (k', v) :: d' => if pystr_eqb k k' then Some v else dict_get d' k
  end.

(** [d.get(k)], whose default is [None]. *)
Definition dict_get_or_none (d : pydict) (k : pystr) : pyval :=
  match dict_get d k with Some v => v | None => PyNone end.

(** [d[k] = v]: overwrite in place, or append a new key. *)
Fixpoint dict_set (d : pydict) (k : pystr) (v : pyval) : pydict :=
  match d with
  | [] => [(k, v)]
  | (k', v') :: d' => if pystr_eqb k k' then (k', v) :: d' else (k', v') :: dict_set d' k v
  end.

(** A Python [dict] never holds a key twice. *)
Definition valid_dict (d : pydict) : Prop := NoDup (map fst d).

(** Truth value ([if x:]). *)
Definition truthy (v : pyval) : bool :=
  match v with
  | PyStr s => negb (Nat.eqb (length s) 0)
  | PyInt z => negb (Z.eqb z 0)
  | PyBool b => b
  | PyNone => false
  end.

(** [f"{v}"], i.e. [str(v)]. *)
Definition py_format (v : pyval) : pystr :=
  match v with
  | PyStr s => s
  | PyInt z => Chunking.py_str_int z
  | PyBool true => [84; 114; 117; 101]%nat
  | PyBool false => [70; 97; 108; 115; 101]%nat
  | PyNone => [78; 111; 110; 101]%nat
  end.

Record Document := mkDocument {
  doc_id : pystr;
  doc_source : pystr;
  doc_content : pystr;
  doc_metadata : pydict
}.

Record DocumentChunk := mkDocumentChunk {
  chunk_id : pystr;
  document_id : pystr;
  chunk_source : pystr;
  content : pystr;
  metadata : pydict
}.

Record SearchResult {Score : Type} := mkSearchResult {
  sr_chunk : DocumentChunk;
  score : Score
}.
Arguments SearchResult : clear implicits.

(** Keys of the metadata, as code points. *)
Definition key_title : pystr := lit "title".
Definition key_path : pystr := lit "path".

(** [SearchResult.citation]: [title] if truthy (formatted), else [path] if
    truthy (returned as is), else [None]. *)
Definition citation {Score} (r : SearchResult Score) : option pyval :=
  let title := dict_get_or_none (metadata (sr_chunk r)) key_title in
  if truthy title then Some (PyStr (py_format title)) else
  let path := dict_get_or_none (metadata (sr_chunk r)) key_path in
  if truthy path then Some path else None.

End Models.

(** ** [storage/vector_store.py] *)
Module Store.
Import Models.

(** The JSON document written by [json.dump] and read by [json.load]
    (the text layer of Python's [json] module round-trips these values). *)
#[warnings="-register-all"]
Inductive json :=
| JNull
| JBool (b : bool)
| JInt (z : Z)
| JStr (s : pystr)
| JArr (xs : list json)
| JObj (kvs : list (pystr * json)).

(** A NumPy array: its shape and its elements in row-major order
    ([np.save] writes both, [np.load] reads them back). *)
Record ndarray (F : Type) := mkArray { shape : list nat; data : list F }.
Arguments mkArray {F}. Arguments shape {F}. Arguments data {F}.

Definition map_array {F} (f : F -> F) (a : ndarray F) : ndarray F :=
  mkArray (shape a) (map f (data a)).

(** [a.shape[i]] *)
Definition shape_at {F} (a : ndarray F) (i : nat) : option nat := nth_error (shape a) i.

(** [np.vstack([a, b])] for two matrices. *)
Definition vstack {F} (a b : ndarray F) : option (ndarray F) :=
  match shape a, shape b with
  | [r1; c1], [r2; c2] =>
      if Nat.eqb c1 c2 then Some (mkArray [(r1 + r2)%nat; c1] (data a ++ data b)) else None
  | _, _ => None
  end.

(** Exceptions raised by the store. *)
Inductive exn :=
| ValueError_not_2d            (* "Embeddings must be a 2D array" *)
| ValueError_dimension_mismatch (* "Embedding dimension mismatch" *)
| ValueError_query_shape       (* "Query embedding must be a 2D array with a single row" *)
| ValueError_shapes            (* NumPy refusing to combine arrays *)
| IndexError
| LoadError                    (* a metadata file [_load] cannot turn into chunks *)
| LoopDiverges.                (* the chunking loop not stopping; never happens *)

Section StoreOps.
Context {F : Type}.

Record VectorStore := mkStore {
  _chunks : list DocumentChunk;
  _embeddings : option (ndarray F);
  _embedding_model : option pystr
}.

(** The storage directory: [metadata.json] and [vectors.npy]. *)
Record Disk := mkDisk {
  meta_file : option json;
  vectors_file : option (ndarray F)
}.

Record World := mkWorld { store : VectorStore; disk : Disk }.

(** Python statements: state passing where an exception keeps every
    mutation made before it was raised. *)
Definition M (A : Type) := World -> (exn + A) * World.
Definition ret {A} (a : A) : M A := fun w => (inr a, w).
Definition raise {A} (e : exn) : M A := fun w => (inl e, w).
Definition bind {A B} (m : M A) (k : A -> M B) : M B :=
  fun w => match m w with (inr a, w') => k a w' | (inl e, w') => (inl e, w') end.
Definition get_world : M World := fun w => (inr w, w).
Definition put_world (w : World) : M unit := fun _ => (inr tt, w).

Notation "x <- m ;; k" := (bind m (fun x => k)) (at level 61, m at next level, right associativity).
Notation "m ;;; k" := (bind m (fun _ => k)) (at level 61, right associativity).

Definition set_store (st : VectorStore) : M unit :=
  w <- get_world ;; put_world (mkWorld st (disk w)).

(** **** The metadata artifact *)

Definition json_of_pyval (v : pyval) : json :=
  match v with
  | PyStr s => JStr s
  | PyInt z => JInt z
  | PyBool b => JBool b
  | PyNone => JNull
  end.

Definition json_of_dict (d : pydict) : json :=
  JObj (map (fun kv => (fst kv, json_of_pyval (snd kv))) d).

(** [asdict(chunk)] *)
Definition asdict (c : DocumentChunk) : json :=
  JObj [(lit "id", JStr (chunk_id c)); (lit "document_id", JStr (document_id c));
        (lit "source", JStr (chunk_source c)); (lit "content", JStr (content c));
        (lit "metadata", json_of_dict (metadata c))].

(** The payload [_save] dumps. *)
Definition payload (st : VectorStore) : json :=
  JObj [(lit "chunks", JArr (map asdict (_chunks st)));
        (lit "embedding_model",
          match _embedding_model st with Some m => JStr m | None => JNull end)].

(** Member lookup in a parsed JSON object: [json.load] keeps the last
    value of a repeated key. *)
Fixpoint jget (kvs : list (pystr * json)) (k : pystr) : option json :=
  match kvs with
  | [] => None
  | (k', v) :: rest =>
      match jget rest k with
      | Some x => Some x
      | None => if pystr_eqb k k' then Some v else None
      end
  end.

Fixpoint map_option {A B} (f : A -> option B) (l : list A) : option (list B) :=
  match l with
  | [] => Some []
  | x :: l' =>
      match f x, map_option f l' with
      | Some y, Some ys => Some (y :: ys)
      | _, _ => None
      end
  end.

Definition pyval_of_json (j : json) : option pyval :=
  match j with
  | JStr s => Some (PyStr s)
  | JInt z => Some (PyInt z)
  | JBool b => Some (PyBool b)
  | JNull => Some PyNone
  | _ => None
  end.

(** A JSON object as a Python dict: a repeated key keeps its first
    position and its last value. *)
Definition dict_of_json (j : json) : option pydict :=
  match j with
  | JObj kvs =>
      match map_option (fun kv => match pyval_of_json (snd kv) with
                                  | Some v => Some (fst kv, v) | None => None end) kvs with
      | Some items => Some (fold_left (fun d kv => dict_set d (fst kv) (snd kv)) items [])
      | None => None
      end
  | _ => None
  end.

Definition chunk_fields : list pystr :=
  [lit "id"; lit "document_id"; lit "source"; lit "content"; lit "metadata"].

Definition jstr_field (kvs : list (pystr * json)) (k : pystr) : option pystr :=
  match jget kvs k with Some (JStr s) => Some s | _ => None end.

(** [DocumentChunk( **item)]: the four text fields are required,
    [metadata] defaults to [{}], any other key is a [TypeError]. *)
Definition chunk_of_json (j : json) : option DocumentChunk :=
  match j with
  | JObj kvs =>
      if forallb (fun kv => existsb (pystr_eqb (fst kv)) chunk_fields) kvs then
        match jstr_field kvs (lit "id"), jstr_field kvs (lit "document_id"),
              jstr_field kvs (lit "source"), jstr_field kvs (lit "content"),
              match jget kvs (lit "metadata") with
              | None => Some []
              | Some m => dict_of_json m
              end with
        | Some i, Some d, Some so, Some co, Some md => Some (mkDocumentChunk i d so co md)
        | _, _, _, _, _ => None
        end
      else None
  | _ => None
  end.

(** [_load]: both artifacts must exist, otherwise the store stays empty;
    no comparison of the chunk count with the row count is made. *)
Definition _load (st : VectorStore) (d : Disk) : exn + VectorStore :=
  match meta_file d, vectors_file d with
  | Some meta, Some vecs =>
      match meta with
      | JObj kvs =>
          let items := match jget kvs (lit "chunks") with
                       | None => Some []
                       | Some (JArr xs) => Some xs
                       | Some (JStr []) | Some (JObj []) => Some []
                       | Some _ => None
                       end in
          let model := match jget kvs (lit "embedding_model") with
                       | None | Some JNull => Some None
                       | Some (JStr m) => Some (Some m)
                       | Some _ => None
                       end in
          match items with
          | Some xs =>
              match map_option chunk_of_json xs, model with
              | Some cs, Some m => inr (mkStore cs (Some vecs) m)
              | _, _ => inl LoadError
              end
          | None => inl LoadError
          end
      | _ => inl LoadError
      end
  | _, _ => inr st
  end.

(** [VectorStore(storage_dir)] *)
Definition open_store (d : Disk) : exn + VectorStore := _load (mkStore [] None None) d.

(** [_save] *)
Definition _save : M unit :=
  w <- get_world ;;
  let st := store w in
  let vecs := match _embeddings st with
              | Some e => Some e
              | None => vectors_file (disk w)
              end in
  put_world (mkWorld st (mkDisk (Some (payload st)) vecs)).

(** **** [add_documents] *)

Record EmbeddingBackend := mkEmbedder {
  model_name : pystr;
  embed : list pystr -> ndarray F
}.

(** [np.asarray(x, dtype=np.float32)] on one element. *)
Variable as_float32 : F -> F.
(** [chunk_text]: the strategy in effect (tokenizer, or the character
    fallback [Chunking.chunk_text]); [None] would be a loop not stopping. *)
Variable chunk_text : pystr -> Z -> Z -> option (list pystr).

Definition chunks_of_document (chunk_size chunk_overlap : Z) (d : Document)
  : option (list DocumentChunk) :=
  match chunk_text (doc_content d) chunk_size chunk_overlap with
  | Some chunks =>
      let chunk_ids := Chunking.enumerate_chunks chunks (doc_id d) in
      Some (map (fun ic => mkDocumentChunk (fst ic) (doc_id d) (doc_source d) (snd ic)
                                           (doc_metadata d))
                (combine chunk_ids chunks))
  | None => None
  end.

(** The loop building [new_chunks]. *)
Definition collect_chunks (documents : list Document) (chunk_size chunk_overlap : Z)
  : option (list DocumentChunk) :=
  match map_option (chunks_of_document chunk_size chunk_overlap) documents with
  | Some per_doc => Some (concat per_doc)
  | None => None
  end.

Definition add_documents (documents : list Document) (embedder : EmbeddingBackend)
  (chunk_size chunk_overlap : Z) : M unit :=
  match collect_chunks documents chunk_size chunk_overlap with
  | None => raise LoopDiverges
  | Some [] => ret tt
  | Some new_chunks =>
      let chunk_texts := map content new_chunks in
      let embeddings := map_array as_float32 (embed embedder chunk_texts) in
      if negb (Nat.eqb (length (shape embeddings)) 2) then raise ValueError_not_2d else
      w <- get_world ;;
      let st := store w in
      match _embeddings st with
      | None => set_store (mkStore new_chunks (Some embeddings) (_embedding_model st))
      | Some cur =>
          match shape_at embeddings 1, shape_at cur 1 with
          | Some d_new, Some d_cur =>
              if negb (Nat.eqb d_new d_cur) then raise ValueError_dimension_mismatch else
              match vstack cur embeddings with
              | Some stacked =>
                  set_store (mkStore (_chunks st ++ new_chunks) (Some stacked)
                                     (_embedding_model st))
              | None => raise ValueError_shapes
              end
          | _, _ => raise IndexError
          end
      end ;;;
      w' <- get_world ;;
      let st' := store w' in
      set_store (mkStore (_chunks st') (_embeddings st') (Some (model_name embedder))) ;;;
      _save
  end.

(** The worlds a program reaches: a store opened on a directory, then any
    sequence of [add_documents] calls (successful or not) with documents
    whose metadata are Python dicts. *)
Inductive reachable : World -> Prop :=
| reach_open d st : open_store d = inr st -> reachable (mkWorld st d)
| reach_add w documents embedder chunk_size chunk_overlap :
    reachable w ->
    Forall (fun doc => valid_dict (doc_metadata doc)) documents ->
    reachable (snd (add_documents documents embedder chunk_size chunk_overlap w)).

End StoreOps.

Arguments VectorStore : clear implicits.
Arguments Disk : clear implicits.
Arguments World : clear implicits.
Arguments EmbeddingBackend : clear implicits.

(** Every chunk's metadata is a dict (no key twice). *)
Definition chunks_valid {F} (st : VectorStore F) : Prop :=
  Forall (fun c => valid_dict (metadata c)) (_chunks st).

(** What every reachable world satisfies: reopening its directory gives the
    store in memory. *)
Definition store_inv {F} (w : World F) : Prop :=
  open_store (disk w) = inr (store w) /\ chunks_valid (store w).

(** [chunk_count] *)
Definition chunk_count {F} (st : VectorStore F) : nat := length (_chunks st).

(** [embedding_dimension]: [None] without embeddings, otherwise
    [int(self._embeddings.shape[1])], which raises [IndexError] on an array
    of fewer than two dimensions. *)
Definition embedding_dimension {F} (st : VectorStore F) : exn + option nat :=
  match _embeddings st with
  | None => inr None
  | Some e =>
      match shape_at e 1 with
      | Some d => inr (Some d)
      | None => inl IndexError
      end
  end.

(** One embedding row per chunk: a matrix of [chunk_count] rows, or no
    matrix and no chunk. *)
Definition aligned {F} (st : VectorStore F) : Prop :=
  match _embeddings st with
  | None => _chunks st = []
  | Some e => exists d, shape e = [length (_chunks st); d]
  end.

(** A concrete run: a store opened on an empty directory, one document
    ["hello world"] chunked by [chunk_text] with size 4 and overlap 1, and an
    embedder giving each chunk the 1-wide vector [[1]]. *)
Definition demo_doc : Document :=
  mkDocument (lit "doc") (lit "src") (lit "hello world") [(lit "title", PyStr (lit "T"))].

(** A second document, and one with no content. *)
Definition demo_doc2 : Document := mkDocument (lit "doc2") (lit "src2") (lit "abcdef") [].

Definition demo_empty_doc : Document := mkDocument (lit "empty") (lit "src") [] [].

Definition demo_embedder : EmbeddingBackend nat :=
  @mkEmbedder nat (lit "m") (fun texts => mkArray [length texts; 1%nat] (map (fun _ => 1%nat) texts)).

Definition demo_embedder_wide : EmbeddingBackend nat :=
  @mkEmbedder nat (lit "m2") (fun texts => mkArray [length texts; 2%nat] (flat_map (fun _ => [1%nat; 1%nat]) texts)).

Definition demo_world0 : World nat := mkWorld (mkStore [] None None) (mkDisk None None).

Definition demo_world1 : World nat :=
  snd (add_documents (fun x => x) Chunking.chunk_text [demo_doc] demo_embedder 4 1 demo_world0).

End Store.

(** ** [VectorStore.search]

    The similarities are computed as NumPy computes them, in [float32]:
    IEEE 754 binary32 arithmetic, modelled with the Standard Library's
    [spec_float] with a 24-bit significand and a maximal exponent of 128.
    The reductions NumPy hands to compiled kernels (the matrix-vector
    product, the row sums of the norms, the norm of the query) are
    parameters, as their order of summation depends on the BLAS library and
    the CPU. [as_float32] (the [np.asarray(..., dtype=np.float32)]
    conversion of the query) is left abstract. A stored embedding matrix that
    is not 2-D is modelled as a shape error. *)
Module Search.
Import Models Store.

(** A NumPy [float32]. *)
Definition f32 := spec_float.
Definition prec32 : Z := 24.
Definition emax32 : Z := 128.

Definition add32 : f32 -> f32 -> f32 := SFadd prec32 emax32.
Definition mul32 : f32 -> f32 -> f32 := SFmul prec32 emax32.
Definition div32 : f32 -> f32 -> f32 := SFdiv prec32 emax32.
Definition sqrt32 : f32 -> f32 := SFsqrt prec32 emax32.

(** Conversion of a float to [float32], rounding to nearest, ties to even. *)
Definition round32 (x : spec_float) : f32 :=
  match x with
  | S754_finite s m e => binary_round prec32 emax32 s m e
  | _ => x
  end.

(** The integer [z] as a [float32]. *)
Definition f32_of_Z (z : Z) : f32 := binary_normalize prec32 emax32 z 0 false.

Definition zero32 : f32 := S754_zero false.

(** The Python float [1e-10]: the binary64 number nearest to 10^-10. *)
Definition eps64 : spec_float :=
  SFdiv 53 1024 (binary_normalize 53 1024 1 0 false) (binary_normalize 53 1024 (10 ^ 10) 0 false).

(** [1e-10] added to a [float32] array is converted to [float32] first. *)
Definition eps32 : f32 := round32 eps64.

(** [x != x] *)
Definition is_nan (x : f32) : bool :=
  match x with S754_nan => true | _ => false end.

(** The comparison NumPy sorts floats with, [a < b || (b != b && a == a)]:
    IEEE [<], with NaN placed after every number. *)
Definition npy_lt (a b : f32) : bool := SFltb a b || (is_nan b && negb (is_nan a)).

(** The reductions of the similarity computation:
    - [k_dot row q]: an entry of [doc_vectors @ query_vec];
    - [k_sum xs]: [np.add.reduce] over a row of squares, in
      [np.linalg.norm(doc_vectors, axis=1)];
    - [k_query_norm q]: [np.linalg.norm(query_vec) + 1e-10] as the
      [float32] that multiplies [doc_norms] (the sum is a [float64] under
      NumPy 1's promotion rules and a [float32] under NumPy 2's). *)
Record Kernels := mkKernels {
  k_dot : list f32 -> list f32 -> f32;
  k_sum : list f32 -> f32;
  k_query_norm : list f32 -> f32
}.

(** Row [i] of a 2-D array stored in row-major order. *)
Definition row {A} (a : ndarray A) (i : nat) : list A :=
  match shape a with
  | [_; c] => firstn c (skipn (i * c) (data a))
  | _ => []
  end.

(** [doc_norms[i]]: [np.linalg.norm(doc_vectors, axis=1) + 1e-10], i.e.
    [sqrt(add.reduce(row * row)) + 1e-10]. *)
Definition doc_norm (K : Kernels) (r : list f32) : f32 :=
  add32 (sqrt32 (k_sum K (map (fun x => mul32 x x) r))) eps32.

(** [similarities[i]]: [(doc_vectors @ query_vec)[i] / (doc_norms[i] * query_norm)] *)
Definition sim32 (K : Kernels) (r q : list f32) : f32 :=
  div32 (k_dot K r q) (mul32 (doc_norm K r) (k_query_norm K q)).

(** [similarities] for a matrix of [rows] rows. *)
Definition similarities (K : Kernels) (doc_vectors : ndarray f32) (query_vec : list f32)
  (rows : nat) : list f32 :=
  map (fun i => sim32 K (row doc_vectors i) query_vec) (seq 0 rows).

(** [argsort()]: a stable ascending sort of the positions by their keys,
    by insertion; a new position goes after every position it is not below. *)
Fixpoint insert_idx (key : nat -> f32) (i : nat) (l : list nat) : list nat :=
  match l with
  | [] => [i]
  | j :: l' => if npy_lt (key i) (key j) then i :: l else j :: insert_idx key i l'
  end.

Definition argsort (xs : list f32) : list nat :=
  fold_left (fun acc i => insert_idx (fun j => nth j xs zero32) i acc) (seq 0 (length xs)) [].

Definition search (K : Kernels) (as_float32 : f32 -> f32) (st : VectorStore f32) (query : pystr)
  (embedder : EmbeddingBackend f32) (top_k : Z) : exn + list (SearchResult f32) :=
  match _chunks st, _embeddings st with
  | [], _ | _, None => inr []
  | chunks, Some doc_vectors =>
      let query_vec := map_array as_float32 (embed embedder [query]) in
      match shape query_vec with
      | [1%nat; c] =>
          let q := firstn c (data query_vec) in
          match shape doc_vectors with
          | [r; c'] =>
              if Nat.eqb c' c then
                let sims := similarities K doc_vectors q r in
                let top_indices := py_take top_k (rev (argsort sims)) in
                match map_option (fun idx => option_map (fun ch => @mkSearchResult f32 ch (nth idx sims zero32))
                                                        (nth_error chunks idx)) top_indices with
                | Some results => inr results
                | None => inl IndexError
                end
              else inl ValueError_shapes
          | _ => inl ValueError_shapes
          end
      | _ => inl ValueError_query_shape
      end
  end.

(** Kernels summing from left to right, the query norm as NumPy 2 computes
    it. On the small integer vectors of the examples every sum is exact, so
    every order of summation gives the same values. *)
Definition sum32 (xs : list f32) : f32 :=
  match xs with
  | [] => zero32
  | x :: xs' => fold_left add32 xs' x
  end.

Definition dot32 (u v : list f32) : f32 := sum32 (map (fun p => mul32 (fst p) (snd p)) (combine u v)).

Definition seq_kernels : Kernels :=
  mkKernels dot32 sum32 (fun q => add32 (sqrt32 (dot32 q q)) eps32).

Definition one32 : f32 := f32_of_Z 1.
Definition mone32 : f32 := f32_of_Z (-1).

(** Concrete stores used by the examples below: two chunks of one document,
    and an embedder that embeds every query as [[1, 0]]. *)
Definition chunk_a : DocumentChunk :=
  mkDocumentChunk (lit "doc-0001") (lit "doc") (lit "src") (lit "first") [].
Definition chunk_b : DocumentChunk :=
  mkDocumentChunk (lit "doc-0002") (lit "doc") (lit "src") (lit "second") [].
Definition query_embedder : EmbeddingBackend f32 :=
  @mkEmbedder f32 (lit "m") (fun _ => mkArray [1%nat; 2%nat] [one32; zero32]).
(** Both rows equal to [[1, 0]]. *)
Definition tie_store : VectorStore f32 :=
  mkStore [chunk_a; chunk_b] (Some (mkArray [2%nat; 2%nat] [one32; zero32; one32; zero32])) None.
(** The rows [[6, 8]] and [[3, 4]]: over the reals [6 / (10 + 1e-10)] is
    above [3 / (5 + 1e-10)], in [float32] both similarities are [0.6f]. *)
Definition f32_tie_store : VectorStore f32 :=
  mkStore [chunk_a; chunk_b]
    (Some (mkArray [2%nat; 2%nat] [f32_of_Z 6; f32_of_Z 8; f32_of_Z 3; f32_of_Z 4])) None.

(** The keys [npy_lt] compares: -inf, the negative numbers, the zeros, the
    positive numbers, +inf and NaN, in this order; two numbers of one sign
    by exponent, then by significand, as [SFcompare] does. *)
Definition fkey (x : f32) : Z * Z * Z :=
  match x with
  | S754_infinity true => (0, 0, 0)
  | S754_finite true m e => (1, - e, - Zpos m)
  | S754_zero _ => (2, 0, 0)
  | S754_finite false m e => (3, e, Zpos m)
  | S754_infinity false => (4, 0, 0)
  | S754_nan => (5, 0, 0)
  end.

(** The lexicographic order of the keys. *)
Definition klt (a b : Z * Z * Z) : Prop :=
  let '(a1, a2, a3) := a in
  let '(b1, b2, b3) := b in
  a1 < b1 \/ (a1 = b1 /\ (a2 < b2 \/ (a2 = b2 /\ a3 < b3))).

(** The order [argsort] leaves its positions in: by key, then by position. *)
Definition lex (key : nat -> f32) (i j : nat) : Prop :=
  klt (fkey (key i)) (fkey (key j)) \/ (fkey (key i) = fkey (key j) /\ (i < j)%nat).

End Search.

(** ** [chat/engine.py] *)
Module Engine.
Import Models Store Search.

(** The code points [str.strip()] removes: Python's whitespace
    ([\t\n\v\f\r], the separators 0x1c-0x1f, space, NEL, NBSP, and the
    Unicode spaces and line/paragraph separators). *)
Definition is_py_space (c : nat) : bool :=
  let z := Z.of_nat c in
  ((9 <=? z) && (z <=? 13)) || ((28 <=? z) && (z <=? 32)) ||
  (z =? 133) || (z =? 160) || (z =? 5760) ||
  ((8192 <=? z) && (z <=? 8202)) || (z =? 8232) || (z =? 8233) ||
  (z =? 8239) || (z =? 8287) || (z =? 12288).

Fixpoint lstrip (s : pystr) : pystr :=
  match s with
  | c :: s' => if is_py_space c then lstrip s' else s
  | [] => []
  end.

(** [s.strip()] *)
Definition py_strip (s : pystr) : pystr := rev (lstrip (rev (lstrip s))).

(** ["\n"] *)
Definition nl : pystr := [10%nat].

(** [sep.join(xs)] *)
Fixpoint py_join (sep : pystr) (xs : list pystr) : pystr :=
  match xs with
  | [] => []
  | [x] => x
  | x :: xs' => x ++ sep ++ py_join sep xs'
  end.

(** [result.citation or result.chunk.id], formatted by the f-string. *)
Definition citation_or_id (r : SearchResult f32) : pystr :=
  match citation r with
  | Some v => if truthy v then py_format v else chunk_id (sr_chunk r)
  | None => chunk_id (sr_chunk r)
  end.

(** [f"[Source {idx}: {citation}]\n{result.chunk.content.strip()}"] *)
Definition segment (idx : Z) (r : SearchResult f32) : pystr :=
  lit "[Source " ++ Chunking.py_str_int idx ++ lit ": " ++ citation_or_id r ++ lit "]" ++ nl ++
  py_strip (content (sr_chunk r)).

(** The loop over [enumerate(results, start=idx)]. *)
Fixpoint segments (idx : Z) (results : list (SearchResult f32)) : list pystr :=
  match results with
  | [] => []
  | r :: rs => segment idx r :: segments (idx + 1) rs
  end.

(** [ChatEngine._build_context] *)
Definition _build_context (results : list (SearchResult f32)) : pystr :=
  py_join (nl ++ nl) (segments 1 results).

Record Message := mkMessage { role : pystr; msg_content : pystr }.

Record ChatResponse := mkChatResponse {
  answer : pystr;
  references : list (SearchResult f32)
}.

Definition fallback_answer : pystr :=
  lit "I could not find any relevant information in the knowledge base. Please ingest documents before chatting.".

(** [ChatEngine.ask], for the engine's store, embedder and system prompt;
    [generate] is the chat model's reply to a list of messages; [search]
    raising propagates. *)
Definition ask (K : Kernels) (as_float32 : f32 -> f32) (st : VectorStore f32)
  (embedder : EmbeddingBackend f32)
  (generate : list Message -> pystr) (system_prompt : pystr) (question : pystr) (top_k : Z)
  : exn + ChatResponse :=
  match search K as_float32 st question embedder top_k with
  | inl e => inl e
  | inr references =>
      let context := _build_context references in
      match context with
      | [] => inr (mkChatResponse fallback_answer [])
      | _ =>
          let messages :=
            [mkMessage (lit "system") system_prompt;
             mkMessage (lit "user")
               (lit "Context:" ++ nl ++ context ++ nl ++ nl ++ lit "Question: " ++ question ++ nl)] in
          inr (mkChatResponse (generate messages) (references))
      end
  end.

End Engine.

(** ** [web/app.py]: the [/api/chat] endpoint *)
Module Web.
Import Models Store Search Engine.

(** [ReferencePayload]: [citation] is declared [str | None]. *)
Record ReferencePayload := mkReferencePayload {
  ref_chunk_id : pystr;
  ref_document_id : pystr;
  ref_citation : option pystr;
  ref_score : f32;
  ref_content : pystr;
  ref_source : pystr
}.

(** Building a [ReferencePayload]: pydantic refuses a citation that is not a
    string (a non-string "path" value), raising a validation error. *)
Definition reference_payload (r : SearchResult f32) : option ReferencePayload :=
  let cit := match citation r with
             | None => Some None
             | Some (PyStr s) => Some (Some s)
             | Some _ => None
             end in
  match cit with
  | Some c => Some (mkReferencePayload (chunk_id (sr_chunk r)) (document_id (sr_chunk r)) c
                                       (score r) (content (sr_chunk r)) (chunk_source (sr_chunk r)))
  | None => None
  end.

(** [ChatRequest]'s constraint on [top_k]: [None], or [1 <= top_k <= 20]. *)
Definition chat_request_valid (top_k : option Z) : bool :=
  match top_k with
  | None => true
  | Some k => (1 <=? k) && (k <=? 20)
  end.

(** What the endpoint answers: a request refused by validation (422), an
    empty question (400), an exception (500), or the payload. *)
Inductive EndpointResult :=
| HTTP422
| HTTP400
| HTTP500 (e : option exn)
| OK (answer : pystr) (references : list ReferencePayload).

(** [chat_endpoint] of [create_app(default_top_k=...)]. *)
Definition chat_endpoint (K : Kernels) (as_float32 : f32 -> f32) (st : VectorStore f32)
  (embedder : EmbeddingBackend f32)
  (generate : list Message -> pystr) (system_prompt : pystr) (default_top_k : Z)
  (question : pystr) (payload_top_k : option Z) : EndpointResult :=
  if negb (chat_request_valid payload_top_k) then HTTP422 else
  let question := py_strip question in
  match question with
  | [] => HTTP400
  | _ =>
      let top_k := match payload_top_k with
                   | Some k => if k =? 0 then default_top_k else k
                   | None => default_top_k
                   end in
      match ask K as_float32 st embedder generate system_prompt question top_k with
      | inl e => HTTP500 (Some e)
      | inr response =>
          match map_option reference_payload (references response) with
          | Some refs => OK (answer response) refs
          | None => HTTP500 None
          end
      end
  end.

End Web.

(* ================================================================== *)
(** * Proofs *)

Section SliceFacts.
Context {A : Type}.

Lemma py_slice_in_bounds (s : list A) (i j : Z) :
  0 <= i <= j -> j <= Z.of_nat (length s) ->
  py_slice s i j = firstn (Z.to_nat (j - i)) (skipn (Z.to_nat i) s).
Proof.
  intros Hij Hj. unfold py_slice, py_clamp.
  destruct (i <? 0) eqn:Hi; [apply Z.ltb_lt in Hi; lia|].
  destruct (j <? 0) eqn:Hj'; [apply Z.ltb_lt in Hj'; lia|].
  rewrite (Z.min_l i), (Z.min_l j) by lia.
  destruct (j <=? i) eqn:E; [|reflexivity].
  apply Z.leb_le in E. replace (j - i) with 0 by lia. reflexivity.
Qed.

Lemma py_slice_length (s : list A) (i j : Z) :
  0 <= i <= j -> j <= Z.of_nat (length s) ->
  Z.of_nat (length (py_slice s i j)) = j - i.
Proof.
  intros H1 H2. rewrite py_slice_in_bounds by lia.
  rewrite length_firstn, length_skipn. lia.
Qed.

Lemma py_slice_nth (s : list A) (i j : Z) (q : nat) :
  0 <= i <= j -> j <= Z.of_nat (length s) -> (Z.of_nat q < j - i) ->
  nth_error (py_slice s i j) q = nth_error s (Z.to_nat i + q).
Proof.
  intros H1 H2 H3. rewrite py_slice_in_bounds by lia.
  rewrite nth_error_firstn. destruct (Nat.ltb_spec q (Z.to_nat (j - i))); [|lia].
  rewrite nth_error_skipn. reflexivity.
Qed.

End SliceFacts.

Module ChunkingFacts.
Import Chunking.

Lemma chars_loop_nth fuel text start size step cs :
  chars_loop fuel text start size step = Some cs ->
  forall k c, nth_error cs k = Some c ->
  start + Z.of_nat k * step < Z.of_nat (length text) /\
  c = py_slice text (start + Z.of_nat k * step)
        (Z.min (Z.of_nat (length text)) (start + Z.of_nat k * step + size)).
Proof.
  revert start cs. induction fuel as [|fuel IH]; intros start cs H k c Hk; simpl in H.
  - destruct (start <? _); [discriminate|]. injection H as <-. destruct k; discriminate.
  - destruct (start <? _) eqn:Hlt; [|injection H as <-; destruct k; discriminate].
    apply Z.ltb_lt in Hlt.
    destruct (chars_loop fuel text (start + step) size step) as [rest|] eqn:Hr;
      [|discriminate].
    injection H as <-. destruct k as [|k]; simpl in Hk.
    + injection Hk as <-. split; [lia|]. f_equal; lia.
    + destruct (IH _ _ Hr k c Hk) as [H1 H2]. split; [lia|].
      rewrite H2. f_equal; lia.
Qed.

Lemma chars_loop_total fuel text start size step :
  1 <= step -> Z.of_nat (length text) - start <= Z.of_nat fuel ->
  exists cs, chars_loop fuel text start size step = Some cs /\
    Z.of_nat (length cs) =
      (if start <? Z.of_nat (length text)
       then (Z.of_nat (length text) - start + step - 1) / step else 0).
Proof.
  revert start. induction fuel as [|fuel IH]; intros start Hstep Hf; simpl.
  - destruct (start <? _) eqn:Hlt; [apply Z.ltb_lt in Hlt; lia|].
    exists []. split; reflexivity.
  - destruct (start <? _) eqn:Hlt; [|exists []; split; reflexivity].
    apply Z.ltb_lt in Hlt.
    destruct (IH (start + step)) as [rest [Hr Hlen]]; [lia|lia|].
    rewrite Hr. eexists; split; [reflexivity|].
    simpl length. rewrite Nat2Z.inj_succ, Hlen.
    set (len := Z.of_nat (length text)) in *.
    destruct (start + step <? len) eqn:Hlt2.
    + apply Z.ltb_lt in Hlt2.
      replace (len - start + step - 1) with ((len - (start + step) + step - 1) + 1 * step)
        by lia.
      rewrite Z.div_add by lia. lia.
    + apply Z.ltb_ge in Hlt2. apply Z.div_unique with (r := len - start - 1); lia.
Qed.


Lemma split_step_pos chunk_size chunk_overlap :
  1 <= split_step chunk_size chunk_overlap.
Proof. unfold split_step. lia. Qed.

Lemma split_by_chars_spec text chunk_size chunk_overlap :
  let step := split_step chunk_size chunk_overlap in
  let len := Z.of_nat (length text) in
  exists cs, _split_by_chars text chunk_size chunk_overlap = Some cs /\
    Z.of_nat (length cs) = (len + step - 1) / step /\
    (forall k c, nth_error cs k = Some c ->
       Z.of_nat k * step < len /\
       c = py_slice text (Z.of_nat k * step) (Z.min len (Z.of_nat k * step + chunk_size))).
Proof.
  intros step len. pose proof (split_step_pos chunk_size chunk_overlap) as Hs.
  destruct (chars_loop_total (length text) text 0 chunk_size step) as [cs [Hcs Hlen]];
    [exact Hs|lia|].
  exists cs. split; [exact Hcs|]. split.
  - rewrite Hlen. fold len. destruct (0 <? len) eqn:E.
    + f_equal. lia.
    + apply Z.ltb_ge in E. symmetry. apply Z.div_small. lia.
  - intros k c Hk. destruct (chars_loop_nth _ _ _ _ _ _ Hcs k c Hk) as [H1 H2].
    split; [lia|]. rewrite H2. f_equal; lia.
Qed.

(** ** C5: [_split_by_chars] terminates for every text and every pair of
    integer parameters (also [chunk_overlap >= chunk_size] and negative
    values): the loop with one unit of fuel per character always stops,
    each iteration moves [start] forward by
    [step = max(1, chunk_size - chunk_overlap) >= 1], so the chunk [k]
    starts at [k * step] and there are [ceil(len(text) / step)] chunks. *)
Theorem split_by_chars_terminates (text : pystr) (chunk_size chunk_overlap : Z) :
  let step := split_step chunk_size chunk_overlap in
  step = Z.max 1 (chunk_size - chunk_overlap) /\ 1 <= step /\
  exists cs, _split_by_chars text chunk_size chunk_overlap = Some cs /\
    Z.of_nat (length cs) = (Z.of_nat (length text) + step - 1) / step /\
    (forall k c, nth_error cs k = Some c ->
       c = py_slice text (Z.of_nat k * step)
             (Z.min (Z.of_nat (length text)) (Z.of_nat k * step + chunk_size))).
Proof.
  intros step. split; [reflexivity|]. split; [apply split_step_pos|].
  destruct (split_by_chars_spec text chunk_size chunk_overlap) as [cs [H1 [H2 H3]]].
  exists cs. split; [exact H1|]. split; [exact H2|].
  intros k c Hk. apply (H3 k c Hk).
Qed.

(** ** C4: for [0 <= chunk_overlap < chunk_size], [chunk_text] (character
    strategy) maps the empty text to no chunk and a non-empty text to a
    non-empty list of slices of the text: chunk [k] is the slice starting
    at [k * (chunk_size - chunk_overlap)], has at most [chunk_size]
    characters, every character of the text lies in (and is reproduced by)
    some chunk, and when chunk [k] is full (enough text remains) the last
    [chunk_overlap] characters of chunk [k] are exactly the first
    [chunk_overlap] characters of chunk [k+1]. *)
Theorem chunk_text_chars_cover (text : pystr) (chunk_size chunk_overlap : Z)
  (Hparams : 0 <= chunk_overlap < chunk_size) :
  let step := chunk_size - chunk_overlap in
  let len := Z.of_nat (length text) in
  chunk_text [] chunk_size chunk_overlap = Some [] /\
  (text <> [] ->
   exists cs, chunk_text text chunk_size chunk_overlap = Some cs /\ cs <> [] /\
   (forall k c, nth_error cs k = Some c ->
      Z.of_nat (length c) <= chunk_size /\
      c = py_slice text (Z.of_nat k * step) (Z.min len (Z.of_nat k * step + chunk_size))) /\
   (forall p, (p < length text)%nat ->
      exists k c, nth_error cs k = Some c /\
        Z.of_nat k * step <= Z.of_nat p < Z.of_nat k * step + Z.of_nat (length c) /\
        nth_error c (p - Z.to_nat (Z.of_nat k * step)) = nth_error text p) /\
   (forall k c c', nth_error cs k = Some c -> nth_error cs (S k) = Some c' ->
      Z.of_nat k * step + chunk_size <= len ->
      skipn (Z.to_nat step) c = firstn (Z.to_nat chunk_overlap) c' /\
      length (firstn (Z.to_nat chunk_overlap) c') = Z.to_nat chunk_overlap)).
Proof.
  intros step len. split; [reflexivity|]. intros Hne.
  assert (Hstep : split_step chunk_size chunk_overlap = step)
    by (unfold split_step, step; lia).
  destruct (split_by_chars_spec text chunk_size chunk_overlap) as [cs [Hcs [Hlen Hnth]]].
  rewrite Hstep in Hlen, Hnth. fold len in Hlen, Hnth.
  assert (Hlen0 : 0 < len) by (destruct text; [congruence|]; unfold len; simpl; lia).
  assert (Hchunk : forall k c, nth_error cs k = Some c ->
            Z.of_nat k * step < len /\
            c = py_slice text (Z.of_nat k * step) (Z.min len (Z.of_nat k * step + chunk_size)) /\
            Z.of_nat (length c) = Z.min len (Z.of_nat k * step + chunk_size) - Z.of_nat k * step).
  { intros k c Hk. destruct (Hnth k c Hk) as [H1 H2]. split; [exact H1|]. split; [exact H2|].
    rewrite H2. apply py_slice_length; unfold len in *; lia. }
  exists cs. split; [destruct text; [congruence|exact Hcs]|].
  split.
  { intros ->. simpl in Hlen.
    assert (1 <= (len + step - 1) / step) by (apply Z.div_le_lower_bound; lia). lia. }
  split.
  { intros k c Hk. destruct (Hchunk k c Hk) as [H1 [H2 H3]]. split; [lia|exact H2]. }
  split.
  { intros p Hp.
    set (k := Z.to_nat (Z.of_nat p / step)).
    assert (Hk1 : Z.of_nat k * step <= Z.of_nat p).
    { unfold k. rewrite Z2Nat.id by (apply Z.div_pos; lia).
      rewrite Z.mul_comm. apply Z.mul_div_le. lia. }
    assert (Hk2 : Z.of_nat p < Z.of_nat k * step + step).
    { unfold k. rewrite Z2Nat.id by (apply Z.div_pos; lia).
      pose proof (Z.mod_pos_bound (Z.of_nat p) step ltac:(lia)).
      pose proof (Z.div_mod (Z.of_nat p) step ltac:(lia)). lia. }
    assert (Hkc : (k < length cs)%nat).
    { assert (Z.of_nat k + 1 <= (len + step - 1) / step); [|lia].
      apply Z.div_le_lower_bound; [lia|]. unfold len in *. nia. }
    destruct (nth_error cs k) as [c|] eqn:Hc;
      [|apply nth_error_Some in Hkc; congruence].
    destruct (Hchunk k c Hc) as [H1 [H2 H3]].
    exists k, c. split; [exact Hc|]. split; [unfold len in *; lia|].
    rewrite H2, py_slice_nth; unfold len in *; try lia. f_equal. lia. }
  { intros k c c' Hc Hc' Hfull.
    destruct (Hchunk k c Hc) as [H1 [H2 H3]].
    destruct (Hchunk (S k) c' Hc') as [H1' [H2' H3']].
    rewrite Nat2Z.inj_succ, Z.mul_succ_l in H1', H2', H3'.
    rewrite H2, H2'. unfold len in *.
    rewrite !py_slice_in_bounds by lia.
    rewrite skipn_firstn_comm, firstn_firstn, skipn_skipn.
    rewrite !length_firstn, length_skipn.
    split.
    - f_equal; [lia|]. f_equal. lia.
    - assert (Hz : 0 <= Z.of_nat k * step) by (unfold step in *; nia).
      revert Hz Hfull H1'. generalize (Z.of_nat k * step) as z.
      intros z Hz Hf Hl. unfold step in *. lia. }
Qed.

Lemma chunk_text_chars_cover_witness :
  0 <= 1 < 4 /\ chunk_text [] 4 1 = Some [] /\
  exists cs, chunk_text (lit "hello world") 4 1 = Some cs /\ cs <> [].
Proof.
  split; [lia|].
  destruct (chunk_text_chars_cover (lit "hello world") 4 1 ltac:(lia)) as [H0 H1].
  split; [exact H0|].
  destruct (H1 ltac:(discriminate)) as [cs [Hc [Hne _]]].
  exists cs. split; assumption.
Defined.

End ChunkingFacts.

Module IdsFacts.
Import Chunking.

Lemma pow10_ge_pow2 (k : Z) : 0 <= k -> 2 ^ k <= 10 ^ k.
Proof. intros Hk. apply Z.pow_le_mono_l. lia. Qed.

Lemma log2_fuel (n : Z) : 0 <= n -> n < 10 ^ Z.of_nat (S (Z.to_nat (Z.log2 n))).
Proof.
  intros Hn. rewrite Nat2Z.inj_succ, Z2Nat.id by apply Z.log2_nonneg.
  destruct (Z.eq_dec n 0) as [->|Hn0]; [simpl; lia|].
  destruct (Z.log2_spec n ltac:(lia)) as [_ H].
  pose proof (pow10_ge_pow2 (Z.succ (Z.log2 n)) ltac:(pose proof (Z.log2_nonneg n); lia)).
  lia.
Qed.

Lemma ndigits_aux_spec fuel n :
  0 <= n -> n < 10 ^ Z.of_nat fuel ->
  (1 <= ndigits_aux fuel n)%nat /\
  n < 10 ^ Z.of_nat (ndigits_aux fuel n) /\
  (1 <= n -> 10 ^ (Z.of_nat (ndigits_aux fuel n) - 1) <= n).
Proof.
  revert n. induction fuel as [|f IH]; intros n H0 H1; simpl.
  - simpl in H1. split; [lia|]. split; [lia|]. intros. lia.
  - destruct (n <? 10) eqn:E.
    + apply Z.ltb_lt in E. simpl. lia.
    + apply Z.ltb_ge in E.
      rewrite Nat2Z.inj_succ, Z.pow_succ_r in H1 by lia.
      destruct (IH (n / 10)) as [Hd [Hlt Hge]];
        [apply Z.div_pos; lia| apply Z.div_lt_upper_bound; lia|].
      specialize (Hge ltac:(apply Z.div_le_lower_bound; lia)).
      set (d := ndigits_aux f (n / 10)) in *.
      pose proof (Z.div_mod n 10 ltac:(lia)). pose proof (Z.mod_pos_bound n 10 ltac:(lia)).
      rewrite Nat2Z.inj_succ. split; [lia|].
      replace (Z.succ (Z.of_nat d) - 1) with (Z.of_nat d) by lia.
      rewrite Z.pow_succ_r by lia. split; [nia|]. intros _.
      replace (10 ^ Z.of_nat d) with (10 * 10 ^ (Z.of_nat d - 1)); [nia|].
      rewrite <- Z.pow_succ_r by lia. f_equal; lia.
Qed.

Lemma ndigits_spec n :
  0 <= n ->
  (1 <= ndigits n)%nat /\ n < 10 ^ Z.of_nat (ndigits n) /\
  (1 <= n -> 10 ^ (Z.of_nat (ndigits n) - 1) <= n).
Proof. intros Hn. apply ndigits_aux_spec; [exact Hn|apply log2_fuel; exact Hn]. Qed.

Lemma ceil_log10_aux_spec fuel k m :
  0 <= k -> (1 <= k -> 10 ^ (k - 1) < m) -> m <= 10 ^ (k + Z.of_nat fuel) ->
  let r := ceil_log10_aux fuel k m in
  0 <= r /\ m <= 10 ^ r /\ (1 <= r -> 10 ^ (r - 1) < m).
Proof.
  revert k. induction fuel as [|f IH]; intros k Hk Hlow Hup; simpl.
  - rewrite Z.add_0_r in Hup. auto.
  - destruct (m <=? 10 ^ k) eqn:E.
    + apply Z.leb_le in E. auto.
    + apply Z.leb_gt in E. apply IH; [lia| |].
      * intros _. replace (k + 1 - 1) with k by lia. exact E.
      * replace (k + 1 + Z.of_nat f) with (k + Z.of_nat (S f)) by lia. exact Hup.
Qed.

Lemma ceil_log10_ndigits n : 1 <= n -> ceil_log10 (n + 1) = Z.of_nat (ndigits n).
Proof.
  intros Hn. destruct (ndigits_spec n ltac:(lia)) as [Hd [Hlt Hge]].
  specialize (Hge Hn).
  destruct (ceil_log10_aux_spec (S (Z.to_nat (Z.log2 (n + 1)))) 0 (n + 1))
    as [Hr0 [Hr1 Hr2]]; [lia|lia|simpl Z.add; apply Z.lt_le_incl, log2_fuel; lia|].
  fold (ceil_log10 (n + 1)) in Hr0, Hr1, Hr2.
  set (k := ceil_log10 (n + 1)) in *. set (d := Z.of_nat (ndigits n)) in *.
  destruct (Z.lt_total k d) as [Hkd|[Hkd|Hkd]]; [|exact Hkd|].
  - assert (10 ^ k <= 10 ^ (d - 1)) by (apply Z.pow_le_mono_r; lia). lia.
  - assert (10 ^ d <= 10 ^ (k - 1)) by (apply Z.pow_le_mono_r; lia). lia.
Qed.


Lemma length_pad_digits w n : length (pad_digits w n) = w.
Proof.
  revert n. induction w as [|w IH]; intros n; simpl; [reflexivity|].
  rewrite length_app, IH. simpl. lia.
Qed.

Lemma pad_digits_are_digits w n :
  0 <= n -> Forall (fun c => 48 <= c <= 57)%nat (pad_digits w n).
Proof.
  revert n. induction w as [|w IH]; intros n Hn; cbn [pad_digits]; [constructor|].
  apply Forall_app. split; [apply IH, Z.div_pos; lia|].
  constructor; [|constructor].
  pose proof (Z.mod_pos_bound n 10 ltac:(lia)). lia.
Qed.

Lemma pad_digits_zero m : pad_digits m 0 = repeat 48%nat m.
Proof.
  induction m as [|m IH]; [reflexivity|]. cbn [pad_digits].
  rewrite Zdiv_0_l, IH. change (repeat 48%nat m ++ [48%nat] = repeat 48%nat (S m)).
  rewrite <- repeat_cons. reflexivity.
Qed.

Lemma pad_digits_widen d m n :
  0 <= n < 10 ^ Z.of_nat d ->
  pad_digits (m + d) n = repeat 48%nat m ++ pad_digits d n.
Proof.
  revert n. induction d as [|d IH]; intros n Hn.
  - simpl in Hn. replace n with 0 by lia. rewrite Nat.add_0_r, pad_digits_zero.
    simpl. rewrite app_nil_r. reflexivity.
  - rewrite Nat.add_succ_r. simpl.
    rewrite Nat2Z.inj_succ, Z.pow_succ_r in Hn by lia.
    rewrite IH, app_assoc; [reflexivity|].
    split; [apply Z.div_pos; lia|apply Z.div_lt_upper_bound; lia].
Qed.

Lemma str_lt_irrefl a : str_lt a a = false.
Proof.
  induction a as [|x a IH]; simpl; [reflexivity|].
  rewrite Nat.ltb_irrefl. exact IH.
Qed.

Lemma str_lt_app_same a x y : str_lt (a ++ x) (a ++ y) = str_lt x y.
Proof.
  induction a as [|c a IH]; simpl; [reflexivity|].
  rewrite Nat.ltb_irrefl. exact IH.
Qed.

Lemma str_lt_app_l a b x y :
  length a = length b -> str_lt a b = true -> str_lt (a ++ x) (b ++ y) = true.
Proof.
  revert b. induction a as [|c a IH]; intros [|c' b] Hl Hlt; simpl in *;
    try discriminate.
  destruct (Nat.ltb c c'); [reflexivity|].
  destruct (Nat.ltb c' c); [discriminate|]. apply IH; [lia|exact Hlt].
Qed.

Lemma pad_digits_lt w i j :
  0 <= i < j -> j < 10 ^ Z.of_nat w -> str_lt (pad_digits w i) (pad_digits w j) = true.
Proof.
  revert i j. induction w as [|w IH]; intros i j Hij Hj.
  - simpl in Hj. lia.
  - cbn [pad_digits]. rewrite Nat2Z.inj_succ, Z.pow_succ_r in Hj by lia.
    assert (Hq : i / 10 <= j / 10) by (apply Z.div_le_mono; lia).
    destruct (Z.eq_dec (i / 10) (j / 10)) as [Heq|Hne].
    + rewrite Heq, str_lt_app_same. cbn [str_lt].
      pose proof (Z.div_mod i 10 ltac:(lia)). pose proof (Z.div_mod j 10 ltac:(lia)).
      pose proof (Z.mod_pos_bound i 10 ltac:(lia)).
      pose proof (Z.mod_pos_bound j 10 ltac:(lia)).
      replace (Nat.ltb _ _) with true; [reflexivity|].
      symmetry. apply Nat.ltb_lt. lia.
    + apply str_lt_app_l; [rewrite !length_pad_digits; reflexivity|].
      apply IH; [split; [apply Z.div_pos; lia|lia]|].
      apply Z.div_lt_upper_bound; lia.
Qed.

Lemma zfill_str_int k w :
  1 <= k -> (ndigits k <= w)%nat -> zfill (py_str_int k) w = pad_digits w k.
Proof.
  intros Hk Hw. destruct (ndigits_spec k ltac:(lia)) as [Hd [Hlt _]].
  unfold py_str_int. replace (k <? 0) with false by (symmetry; apply Z.ltb_ge; lia).
  pose proof (pad_digits_are_digits (ndigits k) k ltac:(lia)) as Hdig.
  replace w with ((w - ndigits k) + ndigits k)%nat at 2 by lia.
  rewrite pad_digits_widen by lia.
  destruct (pad_digits (ndigits k) k) as [|c rest] eqn:Hp.
  - pose proof (length_pad_digits (ndigits k) k). rewrite Hp in H. simpl in H. lia.
  - unfold zfill. inversion Hdig as [|? ? Hc _]; subst.
    replace (Nat.eqb c 43 || Nat.eqb c 45)%bool with false
      by (symmetry; apply Bool.orb_false_iff; split; apply Nat.eqb_neq; lia).
    rewrite <- Hp, length_pad_digits. reflexivity.
Qed.


Lemma ndigits_mono k n : 1 <= k <= n -> (ndigits k <= ndigits n)%nat.
Proof.
  intros Hkn. destruct (ndigits_spec k ltac:(lia)) as [_ [_ Hk]].
  destruct (ndigits_spec n ltac:(lia)) as [_ [Hn _]].
  specialize (Hk ltac:(lia)).
  destruct (Nat.le_gt_cases (ndigits k) (ndigits n)) as [H|H]; [exact H|].
  assert (10 ^ Z.of_nat (ndigits n) <= 10 ^ (Z.of_nat (ndigits k) - 1))
    by (apply Z.pow_le_mono_r; lia). lia.
Qed.

Lemma total_digits_nonempty {A} (chunks : list A) :
  chunks <> [] -> total_digits chunks = Nat.max 4 (ndigits (Z.of_nat (length chunks))).
Proof.
  intros Hne. destruct chunks as [|x rest]; [congruence|].
  unfold total_digits. rewrite ceil_log10_ndigits by (simpl length; lia).
  rewrite Nat2Z.id. reflexivity.
Qed.

Lemma enumerate_chunks_nth {A} (chunks : list A) prefix i :
  nth_error (enumerate_chunks chunks prefix) i =
  if Nat.ltb i (length chunks)
  then Some (prefix ++ [45%nat] ++ zfill (py_str_int (Z.of_nat (S i))) (total_digits chunks))
  else None.
Proof.
  unfold enumerate_chunks. rewrite nth_error_map, nth_error_seq.
  destruct (Nat.ltb i (length chunks)); reflexivity.
Qed.

(** The [i]-th identifier (0-based) of a non-empty chunk list. *)
Lemma enumerate_chunks_nth_pad {A} (chunks : list A) prefix i :
  (i < length chunks)%nat ->
  nth_error (enumerate_chunks chunks prefix) i =
  Some (prefix ++ [45%nat] ++
        pad_digits (Nat.max 4 (ndigits (Z.of_nat (length chunks)))) (Z.of_nat (S i))).
Proof.
  intros Hi. rewrite enumerate_chunks_nth.
  destruct (Nat.ltb_spec i (length chunks)); [|lia].
  rewrite total_digits_nonempty by (destruct chunks; simpl in *; [lia|discriminate]).
  rewrite zfill_str_int; [reflexivity|lia|].
  pose proof (ndigits_mono (Z.of_nat (S i)) (Z.of_nat (length chunks)) ltac:(lia)). lia.
Qed.


(** ** C8: [enumerate_chunks] gives the empty list no identifier and a
    list of [n] chunks the [n] identifiers [prefix ++ "-" ++ ordinal],
    ordinals [1..n] written in decimal and left-padded with ['0'] to
    [w = max(4, number of digits of n)] (the code's
    [max(4, ceil(log10(n + 1)))] is that width); the identifiers are
    pairwise distinct and increase in Python's string order with the
    ordinal; in particular [w] is 4 for [n] in {1, 9, 10, 9999} and 5 for
    [n = 10000]. *)
Theorem enumerate_chunks_sortable {A} (chunks : list A) (prefix : pystr) :
  let n := length chunks in
  let ids := enumerate_chunks chunks prefix in
  let w := Nat.max 4 (ndigits (Z.of_nat n)) in
  (chunks = [] -> ids = []) /\
  length ids = n /\
  (chunks <> [] -> total_digits chunks = w) /\
  (forall k, (1 <= k <= n)%nat ->
     (ndigits (Z.of_nat k) <= w)%nat /\
     nth_error ids (k - 1) =
       Some (prefix ++ [45%nat] ++
             repeat 48%nat (w - ndigits (Z.of_nat k)) ++ py_str_int (Z.of_nat k))) /\
  NoDup ids /\
  (forall i j a b, (i < j)%nat -> nth_error ids i = Some a -> nth_error ids j = Some b ->
     str_lt a b = true) /\
  map (fun m => Nat.max 4 (ndigits m)) [1; 9; 10; 9999; 10000] = [4; 4; 4; 4; 5]%nat.
Proof.
  intros n ids w.
  assert (Hlen : length ids = n)
    by (unfold ids, enumerate_chunks; rewrite length_map, length_seq; reflexivity).
  assert (Hw : forall k, (1 <= k <= n)%nat -> (ndigits (Z.of_nat k) <= w)%nat).
  { intros k Hk. pose proof (ndigits_mono (Z.of_nat k) (Z.of_nat n) ltac:(lia)). lia. }
  assert (Hlt : forall i j a b, (i < j)%nat -> nth_error ids i = Some a ->
                 nth_error ids j = Some b -> str_lt a b = true).
  { intros i j a b Hij Ha Hb.
    assert (Hj : (j < n)%nat) by (rewrite <- Hlen; apply nth_error_Some; congruence).
    unfold ids in Ha, Hb.
    rewrite enumerate_chunks_nth_pad in Ha, Hb by lia.
    injection Ha as <-. injection Hb as <-.
    rewrite !str_lt_app_same.
    destruct (ndigits_spec (Z.of_nat n) ltac:(lia)) as [_ [Hn _]].
    apply pad_digits_lt; [lia|].
    apply Z.lt_le_trans with (10 ^ Z.of_nat (ndigits (Z.of_nat n))); [lia|].
    apply Z.pow_le_mono_r; [lia|]. unfold n in *.
    pose proof (Nat.le_max_r 4 (ndigits (Z.of_nat (length chunks)))).
    change (Z.of_nat (ndigits (Z.of_nat (length chunks))) <=
            Z.of_nat (Nat.max 4 (ndigits (Z.of_nat (length chunks))))). lia. }
  split; [intros ->; reflexivity|].
  split; [exact Hlen|].
  split; [apply total_digits_nonempty|].
  split.
  { intros k Hk. split; [apply Hw, Hk|].
    unfold ids. rewrite enumerate_chunks_nth.
    destruct (Nat.ltb_spec (k - 1) (length chunks)); [|lia].
    replace (S (k - 1)) with k by lia.
    rewrite total_digits_nonempty by (destruct chunks; simpl in *; [lia|discriminate]).
    change (Nat.max 4 (ndigits (Z.of_nat (length chunks)))) with w.
    specialize (Hw k Hk).
    rewrite zfill_str_int by lia.
    replace w with ((w - ndigits (Z.of_nat k)) + ndigits (Z.of_nat k))%nat at 1 by lia.
    rewrite pad_digits_widen
      by (pose proof (ndigits_spec (Z.of_nat k) ltac:(lia)); lia).
    unfold py_str_int. replace (Z.of_nat k <? 0) with false
      by (symmetry; apply Z.ltb_ge; lia).
    reflexivity. }
  split.
  { apply NoDup_nth_error. intros i j Hi Heq.
    destruct (nth_error ids i) as [a|] eqn:Ha; [|apply nth_error_Some in Hi; congruence].
    destruct (Nat.lt_total i j) as [Hij|[Hij|Hij]]; [|exact Hij|].
    - pose proof (Hlt i j a a Hij Ha (eq_sym Heq)). rewrite str_lt_irrefl in H. discriminate.
    - pose proof (Hlt j i a a Hij (eq_sym Heq) Ha). rewrite str_lt_irrefl in H. discriminate. }
  split; [exact Hlt|].
  vm_compute. reflexivity.
Qed.

End IdsFacts.

Module StoreFacts.
Import Models Store.

Lemma pystr_eqb_eq a b : pystr_eqb a b = true <-> a = b.
Proof.
  revert b. induction a as [|x a IH]; intros [|y b]; simpl; try (split; congruence).
  rewrite Bool.andb_true_iff, Nat.eqb_eq, IH. split; [intros [-> ->]; reflexivity|].
  intros H. injection H as -> ->. auto.
Qed.

Lemma pystr_eqb_refl a : pystr_eqb a a = true.
Proof. apply pystr_eqb_eq. reflexivity. Qed.

Lemma map_option_Forall2 {A B} (f : A -> option B) l l' :
  map_option f l = Some l' -> Forall2 (fun x y => f x = Some y) l l'.
Proof.
  revert l'. induction l as [|x l IH]; intros l' H; simpl in H.
  - injection H as <-. constructor.
  - destruct (f x) eqn:Hx, (map_option f l) eqn:Hl; try discriminate.
    injection H as <-. constructor; [exact Hx|apply IH; reflexivity].
Qed.

Lemma map_option_map_inv {A B} (f : A -> option B) (g : B -> A) l :
  (forall y, In y l -> f (g y) = Some y) -> map_option f (map g l) = Some l.
Proof.
  induction l as [|y l IH]; intros H; simpl; [reflexivity|].
  rewrite H by (left; reflexivity). rewrite IH by (intros; apply H; right; assumption).
  reflexivity.
Qed.

(** **** Round trip of a metadata dict through JSON *)

Lemma pyval_of_json_of_pyval v : pyval_of_json (json_of_pyval v) = Some v.
Proof. destruct v; reflexivity. Qed.

Lemma dict_set_fresh d k v :
  ~ In k (map fst d) -> dict_set d k v = d ++ [(k, v)].
Proof.
  induction d as [|[k' v'] d IH]; intros Hk; simpl; [reflexivity|].
  destruct (pystr_eqb k k') eqn:E.
  - apply pystr_eqb_eq in E. subst. simpl in Hk. tauto.
  - rewrite IH; [reflexivity|]. simpl in Hk. tauto.
Qed.

Lemma fold_dict_set_fresh acc d :
  NoDup (map fst (acc ++ d)) ->
  fold_left (fun d0 kv => dict_set d0 (fst kv) (snd kv)) d acc = acc ++ d.
Proof.
  revert acc. induction d as [|[k v] d IH]; intros acc Hnd; simpl.
  - rewrite app_nil_r. reflexivity.
  - rewrite dict_set_fresh.
    + rewrite IH; [rewrite <- app_assoc; reflexivity|]. rewrite <- app_assoc. exact Hnd.
    + rewrite map_app in Hnd. simpl in Hnd. apply NoDup_remove_2 in Hnd.
      rewrite in_app_iff in Hnd. tauto.
Qed.

Lemma dict_of_json_of_dict d : valid_dict d -> dict_of_json (json_of_dict d) = Some d.
Proof.
  intros Hv. unfold dict_of_json, json_of_dict.
  rewrite (map_option_map_inv _ (fun kv => (fst kv, json_of_pyval (snd kv)))).
  - rewrite (fold_dict_set_fresh [] d Hv). reflexivity.
  - intros [k v] _. simpl. rewrite pyval_of_json_of_pyval. reflexivity.
Qed.

Lemma dict_set_valid d k v : valid_dict d -> valid_dict (dict_set d k v).
Proof.
  unfold valid_dict. induction d as [|[k' v'] d IH]; intros Hnd; simpl.
  - constructor; [intros []|constructor].
  - inversion Hnd as [|? ? Hnin Hnd']; subst.
    destruct (pystr_eqb k k') eqn:E; simpl; [exact Hnd|].
    constructor; [|apply IH, Hnd'].
    assert (Hkeys : forall x, In x (map fst (dict_set d k v)) -> x = k \/ In x (map fst d)).
    { clear. induction d as [|[a b] d IHd]; intros x Hx; simpl in *.
      - destruct Hx as [->|[]]. left; reflexivity.
      - destruct (pystr_eqb k a); simpl in Hx; destruct Hx as [->|Hx]; auto;
          destruct (IHd x Hx); auto. }
    intros Hin. destruct (Hkeys k' Hin) as [->|Hin']; [|tauto].
    rewrite pystr_eqb_refl in E. discriminate.
Qed.

Lemma dict_of_json_valid j d : dict_of_json j = Some d -> valid_dict d.
Proof.
  unfold dict_of_json. destruct j; try discriminate.
  destruct (map_option _ kvs) as [items|]; [|discriminate]. intros H. injection H as <-.
  assert (Hgen : forall acc, valid_dict acc ->
            valid_dict (fold_left (fun d0 kv => dict_set d0 (fst kv) (snd kv)) items acc)).
  { induction items as [|kv items IH]; intros acc Hacc; simpl; [exact Hacc|].
    apply IH, dict_set_valid, Hacc. }
  apply Hgen. constructor.
Qed.

(** **** Round trip of a chunk and of the payload *)

Lemma chunk_of_json_asdict c :
  valid_dict (metadata c) -> chunk_of_json (asdict c) = Some c.
Proof.
  intros Hv. destruct c as [i d so co md]. simpl in Hv.
  set (jm := json_of_dict md).
  assert (Hkeys : forallb (fun kv => existsb (pystr_eqb (fst kv)) chunk_fields)
            [(lit "id", JStr i); (lit "document_id", JStr d); (lit "source", JStr so);
             (lit "content", JStr co); (lit "metadata", jm)] = true)
    by (vm_compute; reflexivity).
  assert (Hget : forall k, jget [(lit "id", JStr i); (lit "document_id", JStr d);
             (lit "source", JStr so); (lit "content", JStr co); (lit "metadata", jm)] k =
           if pystr_eqb k (lit "metadata") then Some jm
           else if pystr_eqb k (lit "content") then Some (JStr co)
           else if pystr_eqb k (lit "source") then Some (JStr so)
           else if pystr_eqb k (lit "document_id") then Some (JStr d)
           else if pystr_eqb k (lit "id") then Some (JStr i) else None).
  { intros k. cbn [jget].
    destruct (pystr_eqb k (lit "metadata")), (pystr_eqb k (lit "content")),
      (pystr_eqb k (lit "source")), (pystr_eqb k (lit "document_id")),
      (pystr_eqb k (lit "id")); reflexivity. }
  unfold chunk_of_json, asdict. cbn [chunk_id document_id chunk_source content metadata].
  cbv beta iota. fold jm. rewrite Hkeys.
  unfold jstr_field. rewrite !Hget. vm_compute pystr_eqb.
  unfold jm. rewrite (dict_of_json_of_dict md Hv). reflexivity.
Qed.

Lemma load_payload {F} (st : VectorStore F) (st0 : VectorStore F) e :
  chunks_valid st ->
  _load st0 (mkDisk (Some (payload st)) (Some e)) =
  inr (mkStore (_chunks st) (Some e) (_embedding_model st)).
Proof.
  intros Hv.
  assert (H1 : forall a b, jget [(lit "chunks", a); (lit "embedding_model", b)]
                             (lit "chunks") = Some a) by (intros; vm_compute; reflexivity).
  assert (H2 : forall a b, jget [(lit "chunks", a); (lit "embedding_model", b)]
                             (lit "embedding_model") = Some b)
    by (intros; vm_compute; reflexivity).
  unfold _load, payload. cbn [meta_file vectors_file]. cbv beta iota.
  rewrite H1, H2.
  rewrite (map_option_map_inv chunk_of_json asdict).
  - destruct (_embedding_model st); reflexivity.
  - intros c Hc. apply chunk_of_json_asdict.
    exact (proj1 (Forall_forall _ _) Hv c Hc).
Qed.


Lemma chunk_of_json_valid j c : chunk_of_json j = Some c -> valid_dict (metadata c).
Proof.
  unfold chunk_of_json. destruct j; try discriminate.
  destruct (forallb _ kvs); [|discriminate].
  destruct (jstr_field kvs (lit "id")), (jstr_field kvs (lit "document_id")),
    (jstr_field kvs (lit "source")), (jstr_field kvs (lit "content"));
    try discriminate.
  destruct (jget kvs (lit "metadata")) as [m|] eqn:Hm.
  - destruct (dict_of_json m) as [md|] eqn:Hd; [|discriminate].
    intros H. injection H as <-. simpl. apply (dict_of_json_valid m md Hd).
  - intros H. injection H as <-. constructor.
Qed.

Lemma open_store_valid {F} (d : Disk F) st : open_store d = inr st -> chunks_valid st.
Proof.
  unfold open_store, _load.
  destruct (meta_file d) as [meta|], (vectors_file d) as [vecs|];
    try (intros H; injection H as <-; constructor).
  destruct meta; try discriminate.
  destruct (match jget kvs (lit "chunks") with
            | Some (JArr xs) => Some xs | Some (JStr []) | Some (JObj []) | None => Some []
            | Some _ => None end) as [xs|]; [|discriminate].
  destruct (map_option chunk_of_json xs) as [cs|] eqn:Hcs;
    [|destruct (match jget kvs (lit "embedding_model") with
                | Some JNull | None => Some None | Some (JStr m) => Some (Some m)
                | Some _ => None end); discriminate].
  destruct (match jget kvs (lit "embedding_model") with
            | Some JNull | None => Some None | Some (JStr m) => Some (Some m)
            | Some _ => None end); [|discriminate].
  intros H. injection H as <-. unfold chunks_valid. simpl.
  apply map_option_Forall2 in Hcs. clear -Hcs.
  induction Hcs; constructor; [apply (chunk_of_json_valid x y H)|exact IHHcs].
Qed.


Section AddFacts.
Context {F : Type} (as_float32 : F -> F) (split : pystr -> Z -> Z -> option (list pystr)).

Lemma collect_chunks_valid documents chunk_size chunk_overlap new :
  Forall (fun doc => valid_dict (doc_metadata doc)) documents ->
  collect_chunks split documents chunk_size chunk_overlap = Some new ->
  Forall (fun c => valid_dict (metadata c)) new.
Proof.
  intros Hdocs. unfold collect_chunks.
  destruct (map_option _ documents) as [per_doc|] eqn:Hm; [|discriminate].
  intros H. injection H as <-. apply map_option_Forall2 in Hm.
  induction Hm as [|doc cs docs per_doc' Hdoc _ IH]; simpl; [constructor|].
  inversion Hdocs as [|? ? Hv Hvs]; subst.
  apply Forall_app. split; [|apply IH, Hvs].
  unfold chunks_of_document in Hdoc.
  destruct (split (doc_content doc) chunk_size chunk_overlap); [|discriminate].
  injection Hdoc as <-. apply Forall_forall. intros c Hc.
  apply in_map_iff in Hc. destruct Hc as [ic [<- _]]. exact Hv.
Qed.

Lemma save_inv (w : World F) e :
  _embeddings (store w) = Some e -> chunks_valid (store w) ->
  store_inv (snd (_save w)).
Proof.
  destruct w as [st d]. cbn [store]. intros He Hv.
  unfold _save, bind, get_world, put_world. simpl. rewrite He.
  split; [|exact Hv]. unfold open_store. rewrite (load_payload st _ e Hv).
  destruct st as [cs emb m]. simpl in He. subst. reflexivity.
Qed.

Lemma add_documents_inv w documents embedder chunk_size chunk_overlap :
  store_inv w -> Forall (fun doc => valid_dict (doc_metadata doc)) documents ->
  store_inv (snd (add_documents as_float32 split documents embedder chunk_size chunk_overlap w)).
Proof.
  intros Hinv Hdocs. unfold add_documents.
  destruct (collect_chunks split documents chunk_size chunk_overlap) as [new|] eqn:Hc;
    [|exact Hinv].
  pose proof (collect_chunks_valid _ _ _ _ Hdocs Hc) as Hnew.
  destruct new as [|c0 new]; [exact Hinv|].
  set (emb := map_array as_float32 (embed embedder (map content (c0 :: new)))).
  destruct (negb (Nat.eqb (length (shape emb)) 2)); [exact Hinv|].
  destruct w as [st d]. destruct Hinv as [Hopen Hvalid].
  unfold bind, get_world, set_store, put_world. cbn [store disk fst snd].
  destruct (_embeddings st) as [cur|] eqn:Hemb.
  - destruct (shape_at emb 1) as [dn|], (shape_at cur 1) as [dc|];
      cbn [fst snd]; try (split; assumption).
    destruct (negb (Nat.eqb dn dc)); cbn [fst snd]; [split; assumption|].
    destruct (vstack cur emb) as [stacked|]; cbn [fst snd]; [|split; assumption].
    eapply save_inv; [reflexivity|].
    unfold chunks_valid. simpl. apply Forall_app. split; [exact Hvalid|exact Hnew].
  - eapply save_inv; [reflexivity|]. exact Hnew.
Qed.

Lemma reachable_inv w : reachable as_float32 split w -> store_inv w.
Proof.
  induction 1 as [d st Hopen|w documents embedder chunk_size chunk_overlap _ IH Hdocs].
  - split; [exact Hopen|]. apply (open_store_valid d st Hopen).
  - apply add_documents_inv; assumption.
Qed.

(** C2: after any successful [add_documents] on a store reached by opening a
    directory and adding documents (whose metadata are dicts of JSON scalars),
    opening a new store on the same directory yields the same chunk list
    (ids, document ids, sources, contents, metadata), the same embedding
    matrix and the same model name as the store that performed the add. *)
Theorem add_documents_roundtrip w documents embedder chunk_size chunk_overlap w' :
  reachable as_float32 split w ->
  Forall (fun doc => valid_dict (doc_metadata doc)) documents ->
  add_documents as_float32 split documents embedder chunk_size chunk_overlap w = (inr tt, w') ->
  exists st', open_store (disk w') = inr st' /\
    _chunks st' = _chunks (store w') /\ _embeddings st' = _embeddings (store w') /\
    st' = store w'.
Proof.
  intros Hr Hdocs Hadd.
  pose proof (add_documents_inv w documents embedder chunk_size chunk_overlap
                (reachable_inv w Hr) Hdocs) as [Hopen _].
  rewrite Hadd in Hopen. cbn [snd] in Hopen.
  exists (store w'). repeat split. exact Hopen.
Qed.

(** C3: when the store holds an embedding matrix of width [d], the documents
    produce at least one chunk, and the embedder returns a 2-D matrix of width
    [d' <> d], [add_documents] raises the dimension-mismatch [ValueError] and
    leaves the whole world (chunks, embeddings, model, and both files on disk)
    exactly as it was. *)
Theorem add_documents_dimension_mismatch (w : World F) documents embedder
  chunk_size chunk_overlap cur d new_chunks r d' :
  _embeddings (store w) = Some cur ->
  shape_at cur 1 = Some d ->
  collect_chunks split documents chunk_size chunk_overlap = Some new_chunks ->
  new_chunks <> [] ->
  shape (embed embedder (map content new_chunks)) = [r; d'] ->
  d' <> d ->
  add_documents as_float32 split documents embedder chunk_size chunk_overlap w =
    (inl ValueError_dimension_mismatch, w).
Proof.
  intros Hemb Hd Hc Hne Hshape Hneq. unfold add_documents. rewrite Hc.
  destruct new_chunks as [|c0 rest]; [congruence|].
  cbv zeta. unfold map_array. cbn [shape]. rewrite Hshape. cbn [length Nat.eqb negb].
  destruct w as [st dk]. unfold bind, get_world. cbn [store fst snd] in *.
  rewrite Hemb. unfold shape_at at 1. cbn [shape nth_error].
  rewrite Hd. apply Nat.eqb_neq in Hneq. rewrite Hneq. reflexivity.
Qed.

End AddFacts.

Lemma add_documents_roundtrip_witness :
  reachable (fun x : nat => x) Chunking.chunk_text demo_world0 /\
  Forall (fun doc => valid_dict (doc_metadata doc)) [demo_doc] /\
  add_documents (fun x => x) Chunking.chunk_text [demo_doc] demo_embedder 4 1 demo_world0 =
    (inr tt, demo_world1) /\
  length (_chunks (store demo_world1)) = 4%nat /\
  exists st', open_store (disk demo_world1) = inr st' /\
    _chunks st' = _chunks (store demo_world1) /\
    _embeddings st' = _embeddings (store demo_world1) /\ st' = store demo_world1.
Proof.
  assert (Hr : reachable (fun x : nat => x) Chunking.chunk_text demo_world0)
    by (apply (reach_open _ _ (mkDisk None None) (mkStore [] None None)); reflexivity).
  assert (Hv : Forall (fun doc => valid_dict (doc_metadata doc)) [demo_doc])
    by (repeat constructor; simpl; tauto).
  assert (Ha : add_documents (fun x => x) Chunking.chunk_text [demo_doc] demo_embedder 4 1 demo_world0 =
    (inr tt, demo_world1)) by (vm_compute; reflexivity).
  split; [exact Hr|]. split; [exact Hv|]. split; [exact Ha|].
  split; [vm_compute; reflexivity|].
  exact (add_documents_roundtrip (fun x => x) Chunking.chunk_text
           demo_world0 [demo_doc] demo_embedder 4 1 demo_world1 Hr Hv Ha).
Defined.

Lemma add_documents_dimension_mismatch_witness :
  add_documents (fun x => x) Chunking.chunk_text [demo_doc] demo_embedder_wide 4 1 demo_world1 =
    (inl ValueError_dimension_mismatch, demo_world1).
Proof.
  destruct (collect_chunks Chunking.chunk_text [demo_doc] 4 1) as [new|] eqn:Hc;
    [|vm_compute in Hc; discriminate].
  apply (add_documents_dimension_mismatch (fun x => x) Chunking.chunk_text demo_world1
           [demo_doc] demo_embedder_wide 4 1
           (mkArray [4%nat; 1%nat] [1%nat; 1%nat; 1%nat; 1%nat]) 1%nat new 4%nat 2%nat).
  - vm_compute. reflexivity.
  - reflexivity.
  - exact Hc.
  - vm_compute in Hc. injection Hc as <-. discriminate.
  - vm_compute in Hc. injection Hc as <-. reflexivity.
  - lia.
Defined.


(** C9 counterexample: a metadata file listing one chunk next to a vectors
    file of two rows opens without error, holding one chunk and a two-row
    matrix. *)
Lemma open_store_row_mismatch_cex :
  let c := mkDocumentChunk (lit "doc-0001") (lit "doc") (lit "src") (lit "text") [] in
  let vecs := @mkArray nat [2%nat; 1%nat] [0%nat; 0%nat] in
  open_store (mkDisk (Some (payload (@mkStore nat [c] None None))) (Some vecs)) =
    inr (mkStore [c] (Some vecs) None) /\
  length [c] <> 2%nat.
Proof.
  split; [vm_compute; reflexivity|discriminate].
Qed.

(** C9 (amended): [_load] makes no consistency check and there is no load
    error for a count mismatch: when both artifacts exist and the metadata
    file lists valid chunk records, opening the store loads that chunk list
    and the matrix as they are, whatever the number of rows of the matrix. *)
Theorem open_store_no_row_check {F} (st : VectorStore F) (e : ndarray F) :
  chunks_valid st ->
  open_store (mkDisk (Some (payload st)) (Some e)) =
    inr (mkStore (_chunks st) (Some e) (_embedding_model st)).
Proof. intros Hv. unfold open_store. apply load_payload, Hv. Qed.

Lemma open_store_no_row_check_witness :
  let c := mkDocumentChunk (lit "doc-0001") (lit "doc") (lit "src") (lit "text") [] in
  let vecs := @mkArray nat [2%nat; 1%nat] [0%nat; 0%nat] in
  open_store (mkDisk (Some (payload (@mkStore nat [c] None None))) (Some vecs)) =
    inr (mkStore [c] (Some vecs) None).
Proof.
  intros c vecs. apply (open_store_no_row_check (@mkStore nat [c] None None) vecs).
  repeat constructor.
Defined.

End StoreFacts.

Module ModelsFacts.
Import Models.

(** C10 counterexample: a title that is the empty string is skipped, and
    the citation is the path. *)
Lemma citation_empty_title_cex :
  let md := [(key_title, PyStr []); (key_path, PyStr (lit "docs/a.md"))] in
  dict_get md key_title = Some (PyStr []) /\
  citation (@mkSearchResult nat (mkDocumentChunk [] [] [] [] md) 0%nat) =
    Some (PyStr (lit "docs/a.md")).
Proof. split; vm_compute; reflexivity. Qed.

(** C10 (amended): the citation is [str(title)] when the metadata's "title"
    is truthy (a non-empty string, a non-zero integer, [True]); otherwise,
    when "title" is missing or falsy ([""], [0], [False], [None]), it is the
    "path" value when that is truthy; otherwise there is none. A non-empty
    string title is the citation as it is. *)
Theorem citation_preference {Score} (r : SearchResult Score) :
  let md := metadata (sr_chunk r) in
  (forall v, dict_get md key_title = Some v -> truthy v = true ->
     citation r = Some (PyStr (py_format v))) /\
  (forall s, dict_get md key_title = Some (PyStr s) -> s <> [] ->
     citation r = Some (PyStr s)) /\
  ((forall v, dict_get md key_title = Some v -> truthy v = false) ->
     forall p, dict_get md key_path = Some p -> truthy p = true -> citation r = Some p) /\
  ((forall v, dict_get md key_title = Some v -> truthy v = false) ->
     (forall p, dict_get md key_path = Some p -> truthy p = false) -> citation r = None).
Proof.
  intros md. unfold citation, dict_get_or_none. fold md.
  split; [|split; [|split]].
  - intros v Hv Ht. rewrite Hv, Ht. reflexivity.
  - intros s Hv Hs. rewrite Hv. cbn [truthy py_format].
    destruct s as [|x s]; [congruence|]. reflexivity.
  - intros Hno p Hp Hpt.
    assert (Ht : truthy (match dict_get md key_title with Some v => v | None => PyNone end) = false)
      by (destruct (dict_get md key_title) eqn:E; [apply Hno; reflexivity|reflexivity]).
    rewrite Ht, Hp, Hpt. reflexivity.
  - intros Hno Hnp.
    assert (Ht : truthy (match dict_get md key_title with Some v => v | None => PyNone end) = false)
      by (destruct (dict_get md key_title) eqn:E; [apply Hno; reflexivity|reflexivity]).
    assert (Hp : truthy (match dict_get md key_path with Some v => v | None => PyNone end) = false)
      by (destruct (dict_get md key_path) eqn:E; [apply Hnp; reflexivity|reflexivity]).
    rewrite Ht, Hp. reflexivity.
Qed.

Lemma citation_preference_witness :
  let r := @mkSearchResult nat
             (mkDocumentChunk [] [] [] [] [(key_title, PyStr []); (key_path, PyStr (lit "p"))]) 0%nat in
  (forall v, dict_get (metadata (sr_chunk r)) key_title = Some v -> truthy v = false) /\
  citation r = Some (PyStr (lit "p")).
Proof.
  intros r.
  assert (Hno : forall v, dict_get (metadata (sr_chunk r)) key_title = Some v -> truthy v = false)
    by (intros v Hv; vm_compute in Hv; injection Hv as <-; reflexivity).
  split; [exact Hno|].
  apply (proj1 (proj2 (proj2 (citation_preference r))) Hno); vm_compute; reflexivity.
Defined.

End ModelsFacts.

Module SearchFacts.
Import Models Store Search.

(** *** NumPy's order on floats

    [npy_lt] is the strict order of the keys [fkey]; the keys are ordered
    lexicographically, a strict total order. *)

Lemma npy_lt_fkey a b : npy_lt a b = true <-> klt (fkey a) (fkey b).
Proof.
  destruct a as [sa|sa| |sa ma ea], b as [sb|sb| |sb mb eb];
    try destruct sa; try destruct sb;
    unfold npy_lt, SFltb, SFcompare, klt, fkey, is_nan; cbn -[Z.compare Pos.compare_cont];
    repeat match goal with
    | |- context [Z.compare ?x ?y] => destruct (Z.compare_spec x y)
    | |- context [Pos.compare_cont Eq ?x ?y] =>
        change (Pos.compare_cont Eq x y) with (Pos.compare x y); destruct (Pos.compare_spec x y)
    end;
    cbn; split; intros; first [reflexivity | discriminate | lia].
Qed.

Lemma klt_irrefl a : ~ klt a a.
Proof. destruct a as [[a1 a2] a3]. unfold klt. lia. Qed.

Lemma klt_trans a b c : klt a b -> klt b c -> klt a c.
Proof. destruct a as [[a1 a2] a3], b as [[b1 b2] b3], c as [[c1 c2] c3]. unfold klt. lia. Qed.

Lemma klt_total a b : a = b \/ klt a b \/ klt b a.
Proof.
  destruct a as [[a1 a2] a3], b as [[b1 b2] b3]. unfold klt.
  destruct (Z.eq_dec a1 b1) as [<-|H1]; [|right; lia].
  destruct (Z.eq_dec a2 b2) as [<-|H2]; [|right; lia].
  destruct (Z.eq_dec a3 b3) as [<-|H3]; [left; reflexivity|right; lia].
Qed.

Lemma npy_lt_irrefl a : npy_lt a a = false.
Proof.
  destruct (npy_lt a a) eqn:E; [|reflexivity].
  apply npy_lt_fkey, klt_irrefl in E. contradiction.
Qed.

Section Sort.
Variable key : nat -> f32.

Lemma lex_trans i j k : lex key i j -> lex key j k -> lex key i k.
Proof.
  unfold lex. intros [H1|[H1 H1']] [H2|[H2 H2']].
  - left. eapply klt_trans; eassumption.
  - left. rewrite <- H2. exact H1.
  - left. rewrite H1. exact H2.
  - right. split; [congruence|lia].
Qed.

(** A position ranked after another is not below it in NumPy's order. *)
Lemma lex_not_lt i j : lex key i j -> npy_lt (key j) (key i) = false.
Proof.
  intros H. destruct (npy_lt (key j) (key i)) eqn:E; [|reflexivity].
  apply npy_lt_fkey in E. exfalso. destruct H as [H|[H _]].
  - exact (klt_irrefl _ (klt_trans _ _ _ H E)).
  - rewrite H in E. exact (klt_irrefl _ E).
Qed.

Lemma insert_idx_perm i l : Permutation (insert_idx key i l) (i :: l).
Proof.
  induction l as [|j l IH]; simpl; [reflexivity|].
  destruct (npy_lt (key i) (key j)); [reflexivity|].
  rewrite IH. apply perm_swap.
Qed.

Lemma insert_idx_sorted i l :
  StronglySorted (lex key) l -> Forall (fun j => (j < i)%nat) l ->
  StronglySorted (lex key) (insert_idx key i l).
Proof.
  induction l as [|j l IH]; intros Hs Hlt; simpl.
  - constructor; constructor.
  - inversion Hs as [|? ? Hs' Hf]; subst. inversion Hlt as [|? ? Hji Hlt']; subst.
    destruct (npy_lt (key i) (key j)) eqn:Hij.
    + apply npy_lt_fkey in Hij.
      constructor; [exact Hs|]. constructor; [left; exact Hij|].
      eapply Forall_impl; [|exact Hf]. intros x Hx. eapply lex_trans; [left; exact Hij|exact Hx].
    + constructor; [apply IH; assumption|].
      apply Forall_forall. intros x Hx.
      apply (Permutation_in _ (insert_idx_perm i l)) in Hx. destruct Hx as [<-|Hx].
      * unfold lex. destruct (klt_total (fkey (key j)) (fkey (key i))) as [E|[E|E]].
        -- right. split; [exact E|exact Hji].
        -- left. exact E.
        -- apply npy_lt_fkey in E. congruence.
      * rewrite Forall_forall in Hf. apply Hf, Hx.
Qed.

End Sort.

Lemma argsort_spec (xs : list f32) :
  Permutation (argsort xs) (seq 0 (length xs)) /\
  StronglySorted (lex (fun j => nth j xs zero32)) (argsort xs).
Proof.
  unfold argsort. set (key := fun j => nth j xs zero32).
  induction (length xs) as [|m [IHp IHs]].
  - simpl. split; constructor.
  - rewrite seq_S, fold_left_app. cbn [fold_left].
    set (acc := fold_left _ (seq 0 m) []) in *. split.
    + rewrite insert_idx_perm, IHp. apply Permutation_cons_append.
    + apply insert_idx_sorted; [exact IHs|].
      apply Forall_forall. intros j Hj.
      apply (Permutation_in _ IHp), in_seq in Hj. lia.
Qed.

Lemma StronglySorted_nth {A} (Rel : A -> A -> Prop) (l : list A) d i j :
  StronglySorted Rel l -> (i < j < length l)%nat -> Rel (nth i l d) (nth j l d).
Proof.
  intros Hs. revert i j. induction Hs as [|a l Hs IH Hf]; intros i j Hij; simpl in *; [lia|].
  destruct i as [|i], j as [|j]; try lia.
  - rewrite Forall_forall in Hf. apply Hf, nth_In. lia.
  - apply IH. lia.
Qed.

(** The ranking [argsort()[::-1]]. *)
Lemma ranking_perm (xs : list f32) : Permutation (rev (argsort xs)) (seq 0 (length xs)).
Proof.
  rewrite <- Permutation_rev. apply argsort_spec.
Qed.

Lemma ranking_length (xs : list f32) : length (rev (argsort xs)) = length xs.
Proof.
  rewrite (Permutation_length (ranking_perm xs)). apply length_seq.
Qed.

Lemma ranking_NoDup (xs : list f32) : NoDup (rev (argsort xs)).
Proof.
  apply (Permutation_NoDup (Permutation_sym (ranking_perm xs))), seq_NoDup.
Qed.

Lemma ranking_In (xs : list f32) i : In i (rev (argsort xs)) <-> (i < length xs)%nat.
Proof.
  split; intros H.
  - apply (Permutation_in _ (ranking_perm xs)), in_seq in H. lia.
  - apply (Permutation_in _ (Permutation_sym (ranking_perm xs))), in_seq. lia.
Qed.

Lemma ranking_sorted (xs : list f32) a b :
  (a < b < length xs)%nat ->
  lex (fun j => nth j xs zero32) (nth b (rev (argsort xs)) O) (nth a (rev (argsort xs)) O).
Proof.
  intros Hab. destruct (argsort_spec xs) as [Hp Hs].
  pose proof (Permutation_length Hp) as Hl. rewrite length_seq in Hl.
  rewrite !rev_nth by lia.
  apply StronglySorted_nth; [exact Hs|lia].
Qed.

Lemma In_firstn_In {A} (l : list A) m x : In x (firstn m l) -> In x l.
Proof. intros H. rewrite <- (firstn_skipn m l). apply in_or_app. left. exact H. Qed.

Lemma nth_error_firstn_inv {A} (l : list A) m a x :
  nth_error (firstn m l) a = Some x -> (a < m)%nat /\ nth_error l a = Some x.
Proof.
  rewrite nth_error_firstn. destruct (Nat.ltb_spec a m); [|discriminate]. tauto.
Qed.

(** Any prefix of a ranking sorted by [lex] descending lists its positions by
    non-increasing key, and no position left out is above one kept. *)
Section Prefix.
Variables (key : nat -> f32) (rk : list nat) (m : nat).
Hypothesis Hsorted : forall a b, (a < b < length rk)%nat -> lex key (nth b rk O) (nth a rk O).

Lemma prefix_sorted a b ia ib :
  (a < b)%nat -> nth_error (firstn m rk) a = Some ia -> nth_error (firstn m rk) b = Some ib ->
  lex key ib ia.
Proof.
  intros Hab Ha Hb.
  apply nth_error_firstn_inv in Ha as [_ Ha]. apply nth_error_firstn_inv in Hb as [_ Hb].
  pose proof (nth_error_Some rk b) as Hlb. rewrite Hb in Hlb.
  apply (nth_error_nth _ _ O) in Ha. apply (nth_error_nth _ _ O) in Hb.
  subst. apply Hsorted. split; [exact Hab|]. apply Hlb. discriminate.
Qed.

Lemma prefix_dominates k i :
  In k rk -> ~ In k (firstn m rk) -> In i (firstn m rk) -> npy_lt (key i) (key k) = false.
Proof.
  intros Hk Hnk Hi.
  apply In_nth with (d := O) in Hk as [p [Hp <-]].
  apply In_nth with (d := O) in Hi as [a [Ha <-]].
  rewrite length_firstn in Ha. rewrite nth_firstn.
  destruct (Nat.ltb_spec a m); [|lia].
  destruct (Nat.lt_ge_cases p m) as [Hpm|Hpm].
  - exfalso. apply Hnk.
    replace (nth p rk O) with (nth p (firstn m rk) O)
      by (rewrite nth_firstn; destruct (Nat.ltb_spec p m); [reflexivity|lia]).
    apply nth_In. rewrite length_firstn. lia.
  - apply lex_not_lt, Hsorted. lia.
Qed.

End Prefix.

Lemma Forall2_nth_error_r {A B} (P : A -> B -> Prop) l1 l2 a y :
  Forall2 P l1 l2 -> nth_error l2 a = Some y -> exists x, nth_error l1 a = Some x /\ P x y.
Proof.
  intros H. revert a. induction H as [|x y' l1 l2 Hxy _ IH]; intros a Ha.
  - destruct a; discriminate.
  - destruct a as [|a]; simpl in *; [injection Ha as <-; eauto|]. apply IH, Ha.
Qed.

Lemma Forall2_In_r {A B} (P : A -> B -> Prop) l1 l2 y :
  Forall2 P l1 l2 -> In y l2 -> exists x, In x l1 /\ P x y.
Proof.
  induction 1 as [|x y' l1 l2 Hxy _ IH]; simpl; [tauto|].
  intros [<-|Hy]; [eauto|]. destruct (IH Hy) as [x' [? ?]]. eauto.
Qed.

Lemma map_option_total {A B} (f : A -> option B) l :
  (forall x, In x l -> f x <> None) ->
  exists l', map_option f l = Some l' /\ Forall2 (fun x y => f x = Some y) l l'.
Proof.
  induction l as [|x l IH]; intros H; simpl; [eauto|].
  destruct (f x) as [y|] eqn:Hx; [|exfalso; apply (H x); [left; reflexivity|exact Hx]].
  assert (Hl : forall x', In x' l -> f x' <> None) by (intros x' Hx'; apply H; right; exact Hx').
  destruct (IH Hl) as [l' [Hm Hl']]. rewrite Hm.
  exists (y :: l'). split; [reflexivity|]. constructor; assumption.
Qed.

Lemma py_take_firstn {A} (k : Z) (l : list A) :
  py_take k l = firstn (Z.to_nat (py_clamp (Z.of_nat (length l)) k)) l.
Proof.
  unfold py_take, py_slice.
  replace (py_clamp (Z.of_nat (length l)) 0%Z) with 0%Z by (unfold py_clamp; simpl; lia).
  cbn [skipn Z.to_nat]. rewrite Z.sub_0_r.
  destruct (py_clamp (Z.of_nat (length l)) k <=? 0)%Z eqn:E; [|reflexivity].
  apply Z.leb_le in E. unfold py_clamp in *.
  replace (Z.to_nat _) with O; [reflexivity|].
  destruct (k <? 0)%Z; lia.
Qed.

Lemma similarities_nth K emb q n i :
  (i < n)%nat -> nth i (similarities K emb q n) zero32 = sim32 K (row emb i) q.
Proof.
  intros Hi. unfold similarities.
  pose proof (map_nth (fun i => sim32 K (row emb i) q) (seq 0 n) O i) as H.
  cbv beta in H. rewrite seq_nth in H by exact Hi. simpl in H. rewrite <- H.
  apply nth_indep. rewrite length_map, length_seq. exact Hi.
Qed.

Lemma similarities_length K emb q n : length (similarities K emb q n) = n.
Proof. unfold similarities. rewrite length_map. apply length_seq. Qed.

(** [search] on a store with chunks and a matrix of one row per chunk returns,
    for each position of the ranking [argsort()[::-1][:top_k]], that chunk
    and its similarity. *)
Lemma search_ranking K as_float32 st query embedder top_k emb c :
  _chunks st <> [] -> _embeddings st = Some emb ->
  shape emb = [length (_chunks st); c] -> shape (embed embedder [query]) = [1%nat; c] ->
  let q := firstn c (map as_float32 (data (embed embedder [query]))) in
  let sims := similarities K emb q (length (_chunks st)) in
  exists results,
    search K as_float32 st query embedder top_k = inr results /\
    Forall2 (fun i r => (i < length (_chunks st))%nat /\
                        nth_error (_chunks st) i = Some (sr_chunk r) /\ score r = nth i sims zero32)
            (py_take top_k (rev (argsort sims))) results.
Proof.
  intros Hne Hemb He Hq. cbv zeta. unfold search.
  set (q := firstn c (map as_float32 (data (embed embedder [query])))).
  destruct (_chunks st) as [|ch0 chs] eqn:Hc; [congruence|]. rewrite Hemb.
  cbv zeta. unfold map_array. cbn [shape data]. rewrite Hq, He, Nat.eqb_refl.
  fold q. set (sims := similarities K emb q (length (ch0 :: chs))).
  destruct (map_option_total (fun idx => option_map (fun ch => @mkSearchResult f32 ch (nth idx sims zero32))
                                                    (nth_error (ch0 :: chs) idx))
              (py_take top_k (rev (argsort sims)))) as [results [-> Hf]].
  - intros x Hx. rewrite py_take_firstn in Hx. apply In_firstn_In in Hx.
    apply ranking_In in Hx. unfold sims in Hx. rewrite similarities_length in Hx.
    destruct (nth_error (ch0 :: chs) x) eqn:E; [discriminate|].
    apply nth_error_None in E. lia.
  - exists results. split; [reflexivity|].
    eapply Forall2_impl; [|exact Hf]. intros i r Hir.
    cbv beta in Hir. destruct (nth_error (ch0 :: chs) i) eqn:E; cbn in Hir; [|discriminate Hir].
    injection Hir as <-. split; [|split; reflexivity].
    apply nth_error_Some. congruence.
Qed.

Lemma NoDup_firstn {A} (l : list A) m : NoDup l -> NoDup (firstn m l).
Proof. intros H. rewrite <- (firstn_skipn m l) in H. exact (NoDup_app_remove_r _ _ H). Qed.

Lemma Forall2_length' {A B} (P : A -> B -> Prop) l1 l2 : Forall2 P l1 l2 -> length l1 = length l2.
Proof. induction 1; simpl; congruence. Qed.

(** The ranking of a store of [n] chunks, with the similarities of its
    rows: every position once, by non-increasing similarity in NumPy's
    order, ties by decreasing position. *)
Lemma ranking_facts K emb q n :
  let sim i := sim32 K (row emb i) q in
  let rk := rev (argsort (similarities K emb q n)) in
  length rk = n /\ Permutation rk (seq 0 n) /\ NoDup rk /\
  (forall i, In i rk <-> (i < n)%nat) /\
  (forall a b, (a < b < n)%nat -> lex sim (nth b rk O) (nth a rk O)).
Proof.
  intros sim rk.
  assert (Hl : length rk = n) by (unfold rk; rewrite ranking_length; apply similarities_length).
  assert (Hin : forall i, In i rk <-> (i < n)%nat).
  { intros i. unfold rk. rewrite ranking_In, similarities_length. reflexivity. }
  split; [exact Hl|]. split.
  { unfold rk. pose proof (ranking_perm (similarities K emb q n)) as Hp.
    rewrite similarities_length in Hp. exact Hp. }
  split; [apply ranking_NoDup|]. split; [exact Hin|].
  intros a b Hab.
  pose proof (ranking_sorted (similarities K emb q n) a b) as Hs.
  rewrite similarities_length in Hs. specialize (Hs Hab). fold rk in Hs.
  assert (Ha : (nth a rk O < n)%nat) by (apply Hin, nth_In; lia).
  assert (Hb : (nth b rk O < n)%nat) by (apply Hin, nth_In; lia).
  unfold lex in *. cbv beta in Hs. rewrite !similarities_nth in Hs by assumption. exact Hs.
Qed.

(** What [search] returns on a store with chunks and one row per chunk, for
    any [top_k]: the chunks at the first [py_clamp n top_k] positions of the
    ranking, with their similarities. *)
Lemma search_prefix K as_float32 st query embedder top_k emb c :
  _chunks st <> [] -> _embeddings st = Some emb ->
  shape emb = [length (_chunks st); c] -> shape (embed embedder [query]) = [1%nat; c] ->
  let n := length (_chunks st) in
  let q := firstn c (map as_float32 (data (embed embedder [query]))) in
  let sim i := sim32 K (row emb i) q in
  let rk := rev (argsort (similarities K emb q n)) in
  exists results,
    search K as_float32 st query embedder top_k = inr results /\
    Forall2 (fun i r => (i < n)%nat /\ nth_error (_chunks st) i = Some (sr_chunk r) /\
                        score r = sim i)
            (firstn (Z.to_nat (py_clamp (Z.of_nat n) top_k)) rk) results.
Proof.
  intros Hne Hemb He Hq n q sim rk.
  destruct (search_ranking K as_float32 st query embedder top_k emb c Hne Hemb He Hq)
    as [results [Hs Hf]].
  exists results. split; [exact Hs|].
  fold n q rk in Hf. rewrite py_take_firstn in Hf.
  assert (Hrk : length rk = n) by (unfold rk; rewrite ranking_length; apply similarities_length).
  rewrite Hrk in Hf.
  eapply Forall2_impl; [|exact Hf]. intros i r [Hi [Hch Hsc]].
  split; [exact Hi|]. split; [exact Hch|]. rewrite Hsc. apply similarities_nth, Hi.
Qed.

(** The same, with the order facts read off: [py_clamp n top_k] results,
    distinct positions, by non-increasing similarity, ties by decreasing
    position, no chunk left out above a chunk returned. *)
Lemma search_facts K as_float32 st query embedder top_k emb c :
  _chunks st <> [] -> _embeddings st = Some emb ->
  shape emb = [length (_chunks st); c] -> shape (embed embedder [query]) = [1%nat; c] ->
  let n := length (_chunks st) in
  let q := firstn c (map as_float32 (data (embed embedder [query]))) in
  let sim i := sim32 K (row emb i) q in
  exists idxs results,
    search K as_float32 st query embedder top_k = inr results /\
    length idxs = Z.to_nat (py_clamp (Z.of_nat n) top_k) /\
    length results = length idxs /\
    NoDup idxs /\
    Forall2 (fun i r => (i < n)%nat /\ nth_error (_chunks st) i = Some (sr_chunk r) /\
                        score r = sim i) idxs results /\
    (forall a b ia ib, (a < b)%nat -> nth_error idxs a = Some ia -> nth_error idxs b = Some ib ->
                       lex sim ib ia) /\
    (forall k i, (k < n)%nat -> ~ In k idxs -> In i idxs -> npy_lt (sim i) (sim k) = false).
Proof.
  intros Hne Hemb He Hq n q sim.
  destruct (search_prefix K as_float32 st query embedder top_k emb c Hne Hemb He Hq)
    as [results [Hs Hf]].
  fold n q sim in Hf.
  destruct (ranking_facts K emb q n) as [Hrk [_ [Hnd [Hin Hsorted]]]].
  fold sim in Hrk, Hnd, Hin, Hsorted.
  set (rk := rev (argsort (similarities K emb q n))) in *.
  set (m := Z.to_nat (py_clamp (Z.of_nat n) top_k)) in *.
  assert (Hm : (m <= n)%nat) by (unfold m, py_clamp; destruct (Z.ltb_spec top_k 0); lia).
  assert (Hsorted' : forall a b, (a < b < length rk)%nat -> lex sim (nth b rk O) (nth a rk O))
    by (intros a b Hab; apply Hsorted; lia).
  exists (firstn m rk), results. split; [exact Hs|].
  split; [rewrite length_firstn, Hrk; lia|].
  split; [symmetry; apply (Forall2_length' _ _ _ Hf)|].
  split; [apply NoDup_firstn, Hnd|].
  split; [exact Hf|].
  split.
  - intros a b ia ib Hab Ha Hb. exact (prefix_sorted _ rk m Hsorted' a b ia ib Hab Ha Hb).
  - intros k i Hk Hnk Hi.
    exact (prefix_dominates _ rk m Hsorted' k i (proj2 (Hin k) Hk) Hnk Hi).
Qed.

(** The similarities of the rows [[1,0]], [[0,1]], [[-1,0]] to [[1,0]],
    with kernels that compute the exact sums of these vectors exactly. *)
Lemma example_similarities K :
  k_dot K [one32; zero32] [one32; zero32] = one32 ->
  k_dot K [zero32; one32] [one32; zero32] = zero32 ->
  k_dot K [mone32; zero32] [one32; zero32] = mone32 ->
  k_sum K [one32; zero32] = one32 -> k_sum K [zero32; one32] = one32 ->
  k_query_norm K [one32; zero32] = one32 ->
  similarities K (mkArray [3%nat; 2%nat] [one32; zero32; zero32; one32; mone32; zero32])
    [one32; zero32] 3 = [one32; zero32; mone32].
Proof.
  intros H1 H2 H3 H4 H5 H6.
  unfold similarities, sim32, doc_norm, row. cbn [seq map shape data firstn skipn Nat.mul Nat.add].
  replace (mul32 one32 one32) with one32 by (vm_compute; reflexivity).
  replace (mul32 zero32 zero32) with zero32 by (vm_compute; reflexivity).
  replace (mul32 mone32 mone32) with one32 by (vm_compute; reflexivity).
  rewrite H1, H2, H3, H4, H5, H6. vm_compute. reflexivity.
Qed.

Lemma example_argsort : argsort [one32; zero32; mone32] = [2%nat; 1%nat; 0%nat].
Proof. vm_compute. reflexivity. Qed.

(** C1: on a store of [n >= 1] chunks whose embedding matrix has one row per
    chunk, with a one-row query embedding of the same width and [top_k >= 1],
    [search] returns [min(top_k, n)] results: distinct chunks, each with its
    [float32] similarity [(row . query) / ((norm row + 1e-10) * (norm query
    + 1e-10))], by non-increasing similarity (no result is followed by one
    of greater similarity in NumPy's order), and no chunk left out scores
    above a chunk returned. For the rows [[1,0]], [[0,1]], [[-1,0]] and the
    query [[1,0]], [top_k = 2] returns the first chunk (similarity 1.0) then
    the second (0.0), and [top_k = 5] returns all three in descending order,
    with any kernels that compute the exact sums of these vectors. *)
Theorem search_top_k :
  (forall K as_float32 st query embedder top_k emb c,
    _chunks st <> [] -> _embeddings st = Some emb ->
    shape emb = [length (_chunks st); c] -> shape (embed embedder [query]) = [1%nat; c] ->
    (1 <= top_k)%Z ->
    let n := length (_chunks st) in
    let q := firstn c (map as_float32 (data (embed embedder [query]))) in
    exists idxs results,
      search K as_float32 st query embedder top_k = inr results /\
      length results = Nat.min (Z.to_nat top_k) n /\
      NoDup idxs /\
      Forall2 (fun i r => (i < n)%nat /\ nth_error (_chunks st) i = Some (sr_chunk r) /\
                          score r = sim32 K (row emb i) q) idxs results /\
      (forall a b ra rb, (a < b)%nat -> nth_error results a = Some ra ->
                         nth_error results b = Some rb -> npy_lt (score ra) (score rb) = false) /\
      (forall k r, (k < n)%nat -> ~ In k idxs -> In r results ->
                   npy_lt (score r) (sim32 K (row emb k) q) = false))
  /\
  (forall K (c0 c1 c2 : DocumentChunk) model query,
    k_dot K [one32; zero32] [one32; zero32] = one32 ->
    k_dot K [zero32; one32] [one32; zero32] = zero32 ->
    k_dot K [mone32; zero32] [one32; zero32] = mone32 ->
    k_sum K [one32; zero32] = one32 -> k_sum K [zero32; one32] = one32 ->
    k_query_norm K [one32; zero32] = one32 ->
    let st := @mkStore f32 [c0; c1; c2]
                (Some (mkArray [3%nat; 2%nat] [one32; zero32; zero32; one32; mone32; zero32])) model in
    let embedder := @mkEmbedder f32 (lit "m") (fun _ => mkArray [1%nat; 2%nat] [one32; zero32]) in
    search K (fun x => x) st query embedder 2 =
      inr [@mkSearchResult f32 c0 one32; @mkSearchResult f32 c1 zero32] /\
    search K (fun x => x) st query embedder 5 =
      inr [@mkSearchResult f32 c0 one32; @mkSearchResult f32 c1 zero32;
           @mkSearchResult f32 c2 mone32]).
Proof.
  split.
  - intros K as_float32 st query embedder top_k emb c Hne Hemb He Hq Hk n q.
    destruct (search_facts K as_float32 st query embedder top_k emb c Hne Hemb He Hq)
      as [idxs [results [Hs [Hlen [Hlr [Hnd [Hf [Hsorted Hdom]]]]]]]].
    fold n q in Hlen, Hf, Hsorted, Hdom.
    exists idxs, results. split; [exact Hs|].
    split.
    { rewrite Hlr, Hlen. unfold py_clamp. destruct (Z.ltb_spec top_k 0); lia. }
    split; [exact Hnd|]. split; [exact Hf|]. split.
    + intros a b ra rb Hab Ha Hb.
      destruct (Forall2_nth_error_r _ _ _ a ra Hf Ha) as [ia [Hia [_ [_ Hsa]]]].
      destruct (Forall2_nth_error_r _ _ _ b rb Hf Hb) as [ib [Hib [_ [_ Hsb]]]].
      rewrite Hsa, Hsb. apply (lex_not_lt (fun i => sim32 K (row emb i) q)).
      exact (Hsorted a b ia ib Hab Hia Hib).
    + intros k r Hk' Hnk Hr.
      destruct (Forall2_In_r _ _ _ r Hf Hr) as [i [Hi [_ [_ Hsc]]]].
      rewrite Hsc. exact (Hdom k i Hk' Hnk Hi).
  - intros K c0 c1 c2 model query H1 H2 H3 H4 H5 H6 st embedder.
    unfold search, st, embedder. cbn [_chunks _embeddings map_array shape data embed].
    cbv zeta. cbn [Nat.eqb firstn map].
    rewrite (example_similarities K H1 H2 H3 H4 H5 H6), example_argsort.
    split; reflexivity.
Qed.

Lemma search_top_k_witness :
  exists (idxs : list nat) results,
    search seq_kernels (fun x => x) tie_store [] query_embedder 1 = inr results /\
    length results = Nat.min (Z.to_nat 1) 2 /\ NoDup idxs.
Proof.
  destruct ((proj1 search_top_k) seq_kernels (fun x => x) tie_store [] query_embedder 1%Z
              (mkArray [2%nat; 2%nat] [one32; zero32; one32; zero32]) 2%nat) as [idxs [results H]].
  - discriminate.
  - reflexivity.
  - reflexivity.
  - reflexivity.
  - lia.
  - exists idxs, results. destruct H as [Hs [Hl [Hnd _]]]. split; [exact Hs|]. split; assumption.
Defined.

(** C6 counterexample: chunks whose similarities tie come out later-stored
    first: two equal rows [[1,0]], [[1,0]], and the rows [[6,8]], [[3,4]],
    whose similarities to [[1,0]] differ over the reals but are both [0.6f]
    in [float32] (any order of summation computes these sums exactly). *)
Lemma search_ties_cex :
  search seq_kernels (fun x => x) tie_store [] query_embedder 2 =
    inr [@mkSearchResult f32 chunk_b one32; @mkSearchResult f32 chunk_a one32] /\
  search seq_kernels (fun x => x) f32_tie_store [] query_embedder 2 =
    inr [@mkSearchResult f32 chunk_b (div32 (f32_of_Z 3) (f32_of_Z 5));
         @mkSearchResult f32 chunk_a (div32 (f32_of_Z 3) (f32_of_Z 5))] /\
  chunk_a <> chunk_b.
Proof.
  split; [vm_compute; reflexivity|]. split; [vm_compute; reflexivity|discriminate].
Qed.

(** C6 (amended): with the stable ascending [argsort] then [[::-1]], chunks
    whose [float32] similarities tie (neither is below the other in NumPy's
    order: equal numbers, [0.0] and [-0.0], two NaNs) come out in reverse
    insertion order: of two such results, the one listed first is the chunk
    stored later. *)
Theorem search_ties_reversed K as_float32 st query embedder top_k emb c :
  _chunks st <> [] -> _embeddings st = Some emb ->
  shape emb = [length (_chunks st); c] -> shape (embed embedder [query]) = [1%nat; c] ->
  exists idxs results,
    search K as_float32 st query embedder top_k = inr results /\
    Forall2 (fun i r => nth_error (_chunks st) i = Some (sr_chunk r)) idxs results /\
    (forall a b ia ib ra rb, (a < b)%nat ->
       nth_error idxs a = Some ia -> nth_error idxs b = Some ib ->
       nth_error results a = Some ra -> nth_error results b = Some rb ->
       npy_lt (score ra) (score rb) = false -> npy_lt (score rb) (score ra) = false ->
       (ib < ia)%nat).
Proof.
  intros Hne Hemb He Hq.
  destruct (search_facts K as_float32 st query embedder top_k emb c Hne Hemb He Hq)
    as [idxs [results [Hs [_ [_ [_ [Hf [Hsorted _]]]]]]]].
  exists idxs, results. split; [exact Hs|]. split.
  - eapply Forall2_impl; [|exact Hf]. intros i r [_ [H _]]. exact H.
  - intros a b ia ib ra rb Hab Ha Hb Hra Hrb _ Hba.
    destruct (Forall2_nth_error_r _ _ _ a ra Hf Hra) as [ia' [Hia' [_ [_ Hsa]]]].
    destruct (Forall2_nth_error_r _ _ _ b rb Hf Hrb) as [ib' [Hib' [_ [_ Hsb]]]].
    rewrite Ha in Hia'. injection Hia' as <-. rewrite Hb in Hib'. injection Hib' as <-.
    destruct (Hsorted a b ia ib Hab Ha Hb) as [Hlt|[_ Hlt]]; [|exact Hlt].
    exfalso. apply npy_lt_fkey in Hlt. rewrite <- Hsa, <- Hsb in Hlt. congruence.
Qed.

Lemma search_ties_reversed_witness :
  exists (idxs : list nat) results,
    search seq_kernels (fun x => x) f32_tie_store [] query_embedder 2 = inr results /\
    Forall2 (fun i r => nth_error (_chunks f32_tie_store) i = Some (sr_chunk r)) idxs results.
Proof.
  destruct (search_ties_reversed seq_kernels (fun x => x) f32_tie_store [] query_embedder 2%Z
              (mkArray [2%nat; 2%nat] [f32_of_Z 6; f32_of_Z 8; f32_of_Z 3; f32_of_Z 4]) 2%nat)
    as [idxs [results [Hs [Hf _]]]].
  - discriminate.
  - reflexivity.
  - reflexivity.
  - reflexivity.
  - exists idxs, results. split; assumption.
Defined.

(** C7 counterexample: [search] has no guard on [top_k]: on two chunks,
    [top_k = -1] returns one result, as [[:-1]] drops only the last entry of
    the ranking. *)
Lemma search_negative_top_k_cex :
  search seq_kernels (fun x => x) tie_store [] query_embedder (-1) =
    inr [@mkSearchResult f32 chunk_b one32].
Proof. vm_compute. reflexivity. Qed.

(** C7 (amended): a store without chunks or without embeddings gives no
    result for any [top_k]. On a store of [n] chunks with one row each, the
    ranking [argsort()[::-1]] lists every chunk once, by non-increasing
    similarity, and for [top_k <= 0] [search] returns its first
    [max(0, n + top_k)] entries ([top_k = 0]: none; [top_k < 0]: all but
    the last [-top_k]), each with its similarity. *)
Theorem search_nonpositive_top_k :
  (forall K as_float32 (st : VectorStore f32) query embedder top_k,
     _chunks st = [] \/ _embeddings st = None ->
     search K as_float32 st query embedder top_k = inr []) /\
  (forall K as_float32 st query embedder top_k emb c,
     _chunks st <> [] -> _embeddings st = Some emb ->
     shape emb = [length (_chunks st); c] -> shape (embed embedder [query]) = [1%nat; c] ->
     (top_k <= 0)%Z ->
     let n := length (_chunks st) in
     let q := firstn c (map as_float32 (data (embed embedder [query]))) in
     let sim i := sim32 K (row emb i) q in
     let m := Z.to_nat (if (top_k =? 0)%Z then 0 else Z.max 0 (Z.of_nat n + top_k)) in
     exists rk results,
       rk = rev (argsort (similarities K emb q n)) /\
       Permutation rk (seq 0 n) /\
       (forall a b, (a < b < n)%nat -> npy_lt (sim (nth a rk O)) (sim (nth b rk O)) = false) /\
       search K as_float32 st query embedder top_k = inr results /\
       Forall2 (fun i r => nth_error (_chunks st) i = Some (sr_chunk r) /\ score r = sim i)
               (firstn m rk) results /\
       length results = m).
Proof.
  split.
  - intros K as_float32 st query embedder top_k [H|H]; unfold search; rewrite H;
      [reflexivity|destruct (_chunks st); reflexivity].
  - intros K as_float32 st query embedder top_k emb c Hne Hemb He Hq Hk n q sim m.
    destruct (search_prefix K as_float32 st query embedder top_k emb c Hne Hemb He Hq)
      as [results [Hs Hf]].
    fold n q sim in Hf.
    destruct (ranking_facts K emb q n) as [Hrk [Hp [_ [_ Hsorted]]]].
    fold sim in Hrk, Hp, Hsorted.
    set (rk := rev (argsort (similarities K emb q n))) in *.
    assert (Hm : Z.to_nat (py_clamp (Z.of_nat n) top_k) = m).
    { unfold m, py_clamp.
      destruct (Z.eqb_spec top_k 0) as [->|Hk0]; [simpl; lia|].
      destruct (Z.ltb_spec top_k 0); [rewrite Z.add_comm; reflexivity|lia]. }
    rewrite Hm in Hf.
    exists rk, results. split; [reflexivity|]. split; [exact Hp|]. split.
    + intros a b Hab. apply lex_not_lt, Hsorted, Hab.
    + split; [exact Hs|]. split.
      * eapply Forall2_impl; [|exact Hf]. intros i r [_ H]. exact H.
      * rewrite <- (Forall2_length' _ _ _ Hf), length_firstn, Hrk.
        unfold m. destruct (top_k =? 0)%Z; lia.
Qed.

Lemma search_nonpositive_top_k_witness :
  search seq_kernels (fun x => x) (@mkStore f32 [] None None) [] query_embedder 0 = inr [] /\
  exists (rk : list nat) results,
    search seq_kernels (fun x => x) tie_store [] query_embedder (-1) = inr results /\
    length results = 1%nat.
Proof.
  split.
  - apply (proj1 search_nonpositive_top_k). left. reflexivity.
  - destruct ((proj2 search_nonpositive_top_k) seq_kernels (fun x => x) tie_store [] query_embedder
                (-1)%Z (mkArray [2%nat; 2%nat] [one32; zero32; one32; zero32]) 2%nat)
      as [rk [results [_ [_ [_ [Hs [_ Hl]]]]]]].
    + discriminate.
    + reflexivity.
    + reflexivity.
    + reflexivity.
    + lia.
    + exists rk, results. split; [exact Hs|]. rewrite Hl. reflexivity.
Defined.

End SearchFacts.

(* ================================================================== *)
(** * Further properties of the code *)

Module ChunkingExtra.
Import Chunking ChunkingFacts.

(** [chunk_text] falls back to the character strategy when [tiktoken] is
    not installed, when [get_encoding] raises, or when [encode] raises on
    the text. *)
Theorem chunk_text_fallback tiktoken text chunk_size chunk_overlap :
  (tiktoken = None \/ tiktoken = Some None \/
   exists encoding, tiktoken = Some (Some encoding) /\ encode encoding text = None) ->
  chunk_text_tk tiktoken text chunk_size chunk_overlap = chunk_text text chunk_size chunk_overlap.
Proof.
  intros H. unfold chunk_text_tk, chunk_text. destruct text as [|x text]; [reflexivity|].
  destruct H as [->|[->|[encoding [-> He]]]]; [reflexivity|reflexivity|].
  unfold _split_by_tokens. rewrite He. reflexivity.
Qed.

Lemma chunk_text_fallback_witness :
  chunk_text_tk (Some (Some (mkEncoding (fun _ => None) (fun _ => [])))) (lit "abc") 2 1 =
    chunk_text (lit "abc") 2 1.
Proof.
  apply chunk_text_fallback. right. right.
  exists (mkEncoding (fun _ => None) (fun _ => [])). split; reflexivity.
Defined.

(** With a working encoding, a non-empty text whose encoding is the token
    list [tokens] is cut into [ceil(len(tokens) / step)] chunks, chunk [k]
    being the decoding of the token window
    [tokens[k*step : min(len(tokens), k*step + chunk_size)]]. *)
Theorem chunk_text_by_tokens encoding text tokens chunk_size chunk_overlap :
  text <> [] -> encode encoding text = Some tokens ->
  let step := split_step chunk_size chunk_overlap in
  let len := Z.of_nat (length tokens) in
  exists chunks,
    chunk_text_tk (Some (Some encoding)) text chunk_size chunk_overlap = Some chunks /\
    Z.of_nat (length chunks) = (len + step - 1) / step /\
    (forall k c, nth_error chunks k = Some c ->
       c = decode encoding (py_slice tokens (Z.of_nat k * step)
                              (Z.min len (Z.of_nat k * step + chunk_size)))).
Proof.
  intros Hne He step len.
  destruct (split_by_chars_spec tokens chunk_size chunk_overlap) as [ws [Hws [Hlen Hnth]]].
  unfold _split_by_chars in Hws.
  exists (map (decode encoding) ws). split.
  - unfold chunk_text_tk, _split_by_tokens. destruct text as [|x text]; [congruence|].
    rewrite He, Hws. reflexivity.
  - split; [rewrite length_map; exact Hlen|].
    intros k c Hk. rewrite nth_error_map in Hk.
    unfold pystr in *. destruct (nth_error ws k) as [w|] eqn:Hw; cbn in Hk; [|discriminate Hk]. injection Hk as <-.
    destruct (Hnth k w Hw) as [_ ->]. reflexivity.
Qed.

Lemma chunk_text_by_tokens_witness :
  exists chunks,
    chunk_text_tk (Some (Some (mkEncoding (fun t => Some t) (fun t => t)))) (lit "abcde") 2 0 =
      Some chunks /\ Z.of_nat (length chunks) = 3.
Proof.
  destruct (chunk_text_by_tokens (mkEncoding (fun t => Some t) (fun t => t)) (lit "abcde")
              (lit "abcde") 2 0) as [chunks [H1 [H2 _]]].
  - discriminate.
  - reflexivity.
  - exists chunks. split; [exact H1|]. rewrite H2. reflexivity.
Defined.

Lemma chars_loop_concat fuel text start size :
  0 <= start -> 1 <= size -> Z.of_nat (length text) - start <= Z.of_nat fuel ->
  forall cs, chars_loop fuel text start size size = Some cs ->
  concat cs = skipn (Z.to_nat start) text.
Proof.
  revert start. induction fuel as [|fuel IH]; intros start H0 Hs Hf cs H; simpl in H.
  - destruct (start <? _) eqn:Hlt; [discriminate|]. apply Z.ltb_ge in Hlt.
    injection H as <-. simpl. symmetry. apply skipn_all2. lia.
  - destruct (start <? _) eqn:Hlt.
    + apply Z.ltb_lt in Hlt.
      destruct (chars_loop fuel text (start + size) size size) as [rest|] eqn:Hr; [|discriminate].
      injection H as <-. simpl. rewrite (IH (start + size)) by (lia || exact Hr).
      rewrite py_slice_in_bounds by lia.
      destruct (Z.le_ge_cases (start + size) (Z.of_nat (length text))) as [Hle|Hge].
      * rewrite Z.min_r by lia. replace (Z.to_nat (start + size - start)) with (Z.to_nat size) by lia.
        replace (Z.to_nat (start + size)) with (Z.to_nat size + Z.to_nat start)%nat by lia.
        rewrite <- skipn_skipn. apply firstn_skipn.
      * rewrite Z.min_l by lia. rewrite (skipn_all2 (n := Z.to_nat (start + size))) by lia.
        rewrite app_nil_r. apply firstn_all2. rewrite length_skipn. lia.
    + apply Z.ltb_ge in Hlt. injection H as <-. simpl. symmetry. apply skipn_all2. lia.
Qed.

(** With [chunk_overlap = 0] and [chunk_size >= 1] the chunks partition the
    text: their concatenation is the text. *)
Theorem split_by_chars_no_overlap_concat text chunk_size :
  1 <= chunk_size ->
  exists cs, _split_by_chars text chunk_size 0 = Some cs /\ concat cs = text.
Proof.
  intros Hs. destruct (split_by_chars_spec text chunk_size 0) as [cs [Hcs _]].
  exists cs. split; [exact Hcs|].
  unfold _split_by_chars, split_step in Hcs. rewrite Z.sub_0_r, Z.max_r in Hcs by lia.
  apply (chars_loop_concat _ _ 0 chunk_size) in Hcs; [exact Hcs|lia|lia|lia].
Qed.

Lemma split_by_chars_no_overlap_concat_witness :
  exists cs, _split_by_chars (lit "hello world") 4 0 = Some cs /\ concat cs = lit "hello world".
Proof. apply split_by_chars_no_overlap_concat. lia. Defined.

(** With [chunk_size >= 1] no chunk is empty, whatever the overlap. *)
Theorem split_by_chars_nonempty_chunks text chunk_size chunk_overlap :
  1 <= chunk_size ->
  exists cs, _split_by_chars text chunk_size chunk_overlap = Some cs /\ Forall (fun c => c <> []) cs.
Proof.
  intros Hs. destruct (split_by_chars_spec text chunk_size chunk_overlap) as [cs [Hcs [_ Hnth]]].
  exists cs. split; [exact Hcs|]. apply Forall_forall. intros c Hc.
  apply In_nth_error in Hc as [k Hk]. destruct (Hnth k c Hk) as [Hlt ->].
  intros He. pose proof (split_step_pos chunk_size chunk_overlap).
  pose proof (py_slice_length text (Z.of_nat k * split_step chunk_size chunk_overlap)
    (Z.min (Z.of_nat (length text)) (Z.of_nat k * split_step chunk_size chunk_overlap + chunk_size)))
    as Hl.
  rewrite He in Hl. simpl in Hl. lia.
Qed.

Lemma split_by_chars_nonempty_chunks_witness :
  exists cs, _split_by_chars (lit "abc") 1 5 = Some cs /\ Forall (fun c => c <> []) cs.
Proof. apply split_by_chars_nonempty_chunks. lia. Defined.

(** [chunk_size = 0] is not rejected: every chunk is the empty string, and
    there are [ceil(len(text) / step)] of them (one per character when
    [chunk_overlap >= -1]). *)
Theorem split_by_chars_zero_size text chunk_overlap :
  let step := split_step 0 chunk_overlap in
  exists cs, _split_by_chars text 0 chunk_overlap = Some cs /\
    Forall (fun c => c = []) cs /\
    Z.of_nat (length cs) = (Z.of_nat (length text) + step - 1) / step.
Proof.
  intros step. destruct (split_by_chars_spec text 0 chunk_overlap) as [cs [Hcs [Hlen Hnth]]].
  exists cs. split; [exact Hcs|]. split; [|exact Hlen].
  apply Forall_forall. intros c Hc. apply In_nth_error in Hc as [k Hk].
  destruct (Hnth k c Hk) as [Hlt ->]. unfold py_slice, py_clamp.
  pose proof (split_step_pos 0 chunk_overlap).
  rewrite Z.add_0_r, Z.min_r by lia.
  destruct (Z.of_nat k * split_step 0 chunk_overlap <? 0) eqn:E; [apply Z.ltb_lt in E; lia|].
  rewrite Z.leb_refl. reflexivity.
Qed.

(** A negative [chunk_overlap] (with [chunk_size >= 0]) leaves gaps: a
    position [p] with [p mod step >= chunk_size] lies in no chunk. *)
Theorem split_by_chars_negative_overlap_gaps text chunk_size chunk_overlap :
  0 <= chunk_size -> chunk_overlap < 0 ->
  let step := split_step chunk_size chunk_overlap in
  exists cs, _split_by_chars text chunk_size chunk_overlap = Some cs /\
    forall p, p mod step >= chunk_size ->
    forall k c, nth_error cs k = Some c ->
      ~ (Z.of_nat k * step <= p < Z.of_nat k * step + Z.of_nat (length c)).
Proof.
  intros Hs Ho step.
  destruct (split_by_chars_spec text chunk_size chunk_overlap) as [cs [Hcs [_ Hnth]]].
  exists cs. split; [exact Hcs|]. intros p Hp k c Hk [H1 H2].
  destruct (Hnth k c Hk) as [Hlt Hc]. fold step in Hlt, Hc.
  assert (Hstep : step = chunk_size - chunk_overlap) by (unfold step, split_step; lia).
  assert (Hz : 0 <= Z.of_nat k * step) by (apply Z.mul_nonneg_nonneg; lia).
  assert (Hlc : Z.of_nat (length c) <= chunk_size).
  { rewrite Hc. pose proof (py_slice_length text (Z.of_nat k * step)
      (Z.min (Z.of_nat (length text)) (Z.of_nat k * step + chunk_size))) as Hl.
    rewrite Hl by lia. lia. }
  assert (Hmod : p mod step = p - Z.of_nat k * step).
  { symmetry. apply (Z.mod_unique p step (Z.of_nat k)); lia. }
  lia.
Qed.

Lemma split_by_chars_negative_overlap_gaps_witness :
  exists cs, _split_by_chars (lit "abcdef") 1 (-1) = Some cs /\
    forall p, p mod split_step 1 (-1) >= 1 ->
    forall k c, nth_error cs k = Some c ->
      ~ (Z.of_nat k * split_step 1 (-1) <= p < Z.of_nat k * split_step 1 (-1) + Z.of_nat (length c)).
Proof. apply split_by_chars_negative_overlap_gaps; lia. Defined.

End ChunkingExtra.

Module StoreExtra.
Import Models Store StoreFacts.

Lemma length_enumerate_chunks {A} (chunks : list A) prefix :
  length (Chunking.enumerate_chunks chunks prefix) = length chunks.
Proof. unfold Chunking.enumerate_chunks. rewrite length_map, length_seq. reflexivity. Qed.

Lemma map_fst_combine {A B} (l : list A) (l' : list B) :
  length l = length l' -> map fst (combine l l') = l.
Proof.
  revert l'. induction l as [|x l IH]; intros [|y l'] H; simpl in *; try lia; [reflexivity|].
  rewrite IH by lia. reflexivity.
Qed.

Lemma map_snd_combine {A B} (l : list A) (l' : list B) :
  length l = length l' -> map snd (combine l l') = l'.
Proof.
  revert l'. induction l as [|x l IH]; intros [|y l'] H; simpl in *; try lia; [reflexivity|].
  rewrite IH by lia. reflexivity.
Qed.

(** The identifiers [enumerate_chunks] gives: the prefix, ["-"], then
    decimal digits only; pairwise distinct. *)
Lemma enumerate_chunks_form {A} (chunks : list A) prefix x :
  In x (Chunking.enumerate_chunks chunks prefix) ->
  exists s, x = prefix ++ 45%nat :: s /\ ~ In 45%nat s.
Proof.
  intros Hx. apply In_nth_error in Hx as [i Hi].
  assert (Hlt : (i < length chunks)%nat).
  { rewrite <- (length_enumerate_chunks chunks prefix). apply nth_error_Some. congruence. }
  rewrite IdsFacts.enumerate_chunks_nth_pad in Hi by exact Hlt. injection Hi as <-.
  eexists. split; [reflexivity|]. intros Hin.
  pose proof (IdsFacts.pad_digits_are_digits (Nat.max 4 (Chunking.ndigits (Z.of_nat (length chunks))))
                (Z.of_nat (S i)) ltac:(lia)) as Hd.
  rewrite Forall_forall in Hd. specialize (Hd _ Hin). lia.
Qed.

Lemma enumerate_chunks_NoDup {A} (chunks : list A) prefix :
  NoDup (Chunking.enumerate_chunks chunks prefix).
Proof.
  set (n := length chunks). set (w := Nat.max 4 (Chunking.ndigits (Z.of_nat n))).
  assert (Hpad : forall i j, (i < j < n)%nat ->
            Chunking.pad_digits w (Z.of_nat (S i)) <> Chunking.pad_digits w (Z.of_nat (S j))).
  { intros i j Hij Heq.
    destruct (IdsFacts.ndigits_spec (Z.of_nat n) ltac:(lia)) as [_ [Hn _]].
    assert (Hw : 10 ^ Z.of_nat (Chunking.ndigits (Z.of_nat n)) <= 10 ^ Z.of_nat w).
    { apply Z.pow_le_mono_r; [lia|]. unfold w. lia. }
    pose proof (IdsFacts.pad_digits_lt w (Z.of_nat (S i)) (Z.of_nat (S j)) ltac:(lia) ltac:(lia))
      as Hlt.
    rewrite Heq, IdsFacts.str_lt_irrefl in Hlt. discriminate. }
  apply NoDup_nth_error. intros i j Hi Heq.
  rewrite length_enumerate_chunks in Hi. fold n in Hi.
  assert (Hj : (j < n)%nat).
  { rewrite IdsFacts.enumerate_chunks_nth_pad in Heq by exact Hi.
    unfold n. rewrite <- (length_enumerate_chunks chunks prefix). apply nth_error_Some.
    rewrite <- Heq. discriminate. }
  rewrite !IdsFacts.enumerate_chunks_nth_pad in Heq by assumption.
  injection Heq as Heq. apply app_inv_head in Heq. simpl in Heq. injection Heq as Heq.
  fold n w in Heq.
  destruct (Nat.lt_total i j) as [H|[H|H]]; [|exact H|].
  - exfalso. apply (Hpad i j); [lia|exact Heq].
  - exfalso. apply (Hpad j i); [lia|symmetry; exact Heq].
Qed.

(** Splitting at the last ["-"]. *)
Lemma split_last_dash (s1 s2 q1 q2 : pystr) :
  ~ In 45%nat s1 -> ~ In 45%nat s2 -> s1 ++ 45%nat :: q1 = s2 ++ 45%nat :: q2 -> s1 = s2.
Proof.
  revert s2. induction s1 as [|x s1 IH]; intros [|y s2] H1 H2 Heq; simpl in *.
  - reflexivity.
  - injection Heq as Hy _. exfalso. apply H2. left. symmetry. exact Hy.
  - injection Heq as Hx _. exfalso. apply H1. left. exact Hx.
  - injection Heq as -> Heq. f_equal. apply IH; tauto.
Qed.

Lemma dash_prefix_inj (p1 p2 s1 s2 : pystr) :
  ~ In 45%nat s1 -> ~ In 45%nat s2 -> p1 ++ 45%nat :: s1 = p2 ++ 45%nat :: s2 -> p1 = p2.
Proof.
  intros H1 H2 Heq.
  assert (Hr : rev s1 ++ 45%nat :: rev p1 = rev s2 ++ 45%nat :: rev p2).
  { replace (rev s1 ++ 45%nat :: rev p1) with (rev (p1 ++ 45%nat :: s1))
      by (rewrite rev_app_distr; simpl; rewrite <- app_assoc; reflexivity).
    rewrite Heq. rewrite rev_app_distr. simpl. rewrite <- app_assoc. reflexivity. }
  assert (Hs : rev s1 = rev s2).
  { apply (split_last_dash _ _ (rev p1) (rev p2)); [rewrite <- in_rev; exact H1|
                                                    rewrite <- in_rev; exact H2|exact Hr]. }
  rewrite Hs in Hr. apply app_inv_head in Hr. injection Hr as Hr.
  rewrite <- (rev_involutive p1), <- (rev_involutive p2), Hr. reflexivity.
Qed.

Section AddExtra.
Context {F : Type} (as_float32 : F -> F) (split : pystr -> Z -> Z -> option (list pystr)).

Lemma add_documents_raise_world (w : World F) documents embedder chunk_size chunk_overlap e w' :
  add_documents as_float32 split documents embedder chunk_size chunk_overlap w = (inl e, w') ->
  w' = w.
Proof.
  unfold add_documents.
  destruct (collect_chunks split documents chunk_size chunk_overlap) as [[|c0 new]|];
    [discriminate|..|intros H; injection H as _ <-; reflexivity].
  cbv zeta. destruct (negb _); [intros H; injection H as _ <-; reflexivity|].
  destruct w as [st d].
  unfold bind, get_world, set_store, put_world, _save, raise. cbn [store disk fst snd].
  destruct (_embeddings st) as [cur|]; cbn [fst snd store disk _embeddings _chunks _embedding_model];
    [|discriminate].
  destruct (shape_at _ 1), (shape_at cur 1); cbn [fst snd];
    try (intros H; injection H as _ <-; reflexivity).
  destruct (negb _); cbn [fst snd]; [intros H; injection H as _ <-; reflexivity|].
  destruct (vstack cur _); cbn [fst snd]; [discriminate|intros H; injection H as _ <-; reflexivity].
Qed.

Lemma add_documents_stack_eq (w : World F) documents embedder chunk_size chunk_overlap
  cur r0 d new r :
  _embeddings (store w) = Some cur -> shape cur = [r0; d] ->
  collect_chunks split documents chunk_size chunk_overlap = Some new -> new <> [] ->
  shape (embed embedder (map content new)) = [r; d] ->
  let arr := mkArray [(r0 + r)%nat; d]
               (data cur ++ map as_float32 (data (embed embedder (map content new)))) in
  let st' := mkStore (_chunks (store w) ++ new) (Some arr) (Some (model_name embedder)) in
  add_documents as_float32 split documents embedder chunk_size chunk_overlap w =
    (inr tt, mkWorld st' (mkDisk (Some (payload st')) (Some arr))).
Proof.
  intros Hemb Hcur Hc Hne Hout arr st'. unfold add_documents. rewrite Hc.
  destruct new as [|c0 new]; [congruence|].
  cbv zeta. unfold map_array at 1. cbn [shape]. rewrite Hout. cbn [length Nat.eqb negb].
  destruct w as [st dk]. cbn [store] in Hemb.
  unfold bind, get_world, set_store, put_world, _save. cbn [store disk fst snd].
  rewrite Hemb. unfold shape_at, map_array, vstack. cbn [shape data]. rewrite Hout, Hcur.
  cbn [nth_error]. rewrite Nat.eqb_refl. reflexivity.
Qed.

Lemma add_documents_init_eq (w : World F) documents embedder chunk_size chunk_overlap new r d :
  _embeddings (store w) = None ->
  collect_chunks split documents chunk_size chunk_overlap = Some new -> new <> [] ->
  shape (embed embedder (map content new)) = [r; d] ->
  let arr := map_array as_float32 (embed embedder (map content new)) in
  let st' := mkStore new (Some arr) (Some (model_name embedder)) in
  add_documents as_float32 split documents embedder chunk_size chunk_overlap w =
    (inr tt, mkWorld st' (mkDisk (Some (payload st')) (Some arr))).
Proof.
  intros Hemb Hc Hne Hout arr st'. unfold add_documents. rewrite Hc.
  destruct new as [|c0 new]; [congruence|].
  cbv zeta. unfold map_array at 1. cbn [shape]. rewrite Hout. cbn [length Nat.eqb negb].
  destruct w as [st dk]. cbn [store] in Hemb.
  unfold bind, get_world, set_store, put_world, _save. cbn [store disk fst snd].
  rewrite Hemb. reflexivity.
Qed.

(** Every exception of [add_documents] is raised before the store or the
    disk is touched. *)
Theorem add_documents_atomic (w : World F) documents embedder chunk_size chunk_overlap e w' :
  add_documents as_float32 split documents embedder chunk_size chunk_overlap w = (inl e, w') ->
  w' = w.
Proof. apply add_documents_raise_world. Qed.

(** On a store holding a [r0 x d] matrix, an embedder output of shape
    [r x d] is stacked under it for any [r] (its row count is not compared
    with the number of new chunks); the chunks are appended, the model name
    recorded, and both files rewritten from the new store. *)
Theorem add_documents_append (w : World F) documents embedder chunk_size chunk_overlap
  cur r0 d new r :
  _embeddings (store w) = Some cur -> shape cur = [r0; d] ->
  collect_chunks split documents chunk_size chunk_overlap = Some new -> new <> [] ->
  shape (embed embedder (map content new)) = [r; d] ->
  let arr := mkArray [(r0 + r)%nat; d]
               (data cur ++ map as_float32 (data (embed embedder (map content new)))) in
  let st' := mkStore (_chunks (store w) ++ new) (Some arr) (Some (model_name embedder)) in
  add_documents as_float32 split documents embedder chunk_size chunk_overlap w =
    (inr tt, mkWorld st' (mkDisk (Some (payload st')) (Some arr))).
Proof. apply add_documents_stack_eq. Qed.

(** On a store without embeddings, the embedder output (any 2-D array)
    becomes the matrix and the new chunks the chunk list; the model name is
    recorded and both files are written. *)
Theorem add_documents_first (w : World F) documents embedder chunk_size chunk_overlap new r d :
  _embeddings (store w) = None ->
  collect_chunks split documents chunk_size chunk_overlap = Some new -> new <> [] ->
  shape (embed embedder (map content new)) = [r; d] ->
  let arr := map_array as_float32 (embed embedder (map content new)) in
  let st' := mkStore new (Some arr) (Some (model_name embedder)) in
  add_documents as_float32 split documents embedder chunk_size chunk_overlap w =
    (inr tt, mkWorld st' (mkDisk (Some (payload st')) (Some arr))).
Proof. apply add_documents_init_eq. Qed.

(** After a successful [add_documents] that produced chunks, the embedder
    output was a 2-D array, [embedding_dimension] is its width,
    [chunk_count] has grown by the number of new chunks (counted from zero
    on a store that had no embeddings), and the model name is recorded. *)
Theorem add_documents_counts (w : World F) documents embedder chunk_size chunk_overlap new w' :
  collect_chunks split documents chunk_size chunk_overlap = Some new -> new <> [] ->
  add_documents as_float32 split documents embedder chunk_size chunk_overlap w = (inr tt, w') ->
  exists r d,
    shape (embed embedder (map content new)) = [r; d] /\
    embedding_dimension (store w') = inr (Some d) /\
    chunk_count (store w') =
      ((match _embeddings (store w) with None => O | Some _ => chunk_count (store w) end)
       + length new)%nat /\
    _embedding_model (store w') = Some (model_name embedder).
Proof.
  intros Hc Hne. unfold add_documents. rewrite Hc.
  destruct new as [|c0 new]; [congruence|].
  cbv zeta. unfold map_array at 1. cbn [shape].
  destruct (shape (embed embedder (map content (c0 :: new)))) as [|r [|d [|x sh]]] eqn:Hout;
    cbn [length Nat.eqb negb]; unfold raise; try discriminate.
  destruct w as [st dk].
  unfold bind, get_world, set_store, put_world, _save. cbn [store disk fst snd].
  destruct (_embeddings st) as [cur|] eqn:Hemb.
  - unfold shape_at at 1, map_array. cbn [shape nth_error]. rewrite Hout. cbn [nth_error].
    destruct (shape_at cur 1) as [dc|] eqn:Hdc; [|discriminate].
    destruct (negb (Nat.eqb d dc)) eqn:Hneq; [discriminate|].
    unfold vstack. cbn [shape].
    destruct (shape cur) as [|r1 [|c1 [|y sh']]] eqn:Hcur; try discriminate.
    unfold shape_at in Hdc. rewrite Hcur in Hdc. cbn [nth_error] in Hdc. injection Hdc as ->.
    apply Bool.negb_false_iff, Nat.eqb_eq in Hneq. subst dc.
    rewrite Nat.eqb_refl. intros H. injection H as <-.
    exists r, d. split; [reflexivity|]. split; [reflexivity|].
    split; [|reflexivity]. unfold chunk_count. cbn. rewrite length_app. reflexivity.
  - intros H. injection H as <-. exists r, d.
    split; [reflexivity|]. split; [unfold embedding_dimension, shape_at, map_array; cbn [store _embeddings shape];
                                   cbn [map] in Hout; rewrite Hout; reflexivity|].
    split; reflexivity.
Qed.

(** When the embedder returns one row per text, [add_documents] keeps the
    store aligned (one row per chunk), whether it succeeds or raises. *)
Theorem add_documents_aligned (w : World F) documents embedder chunk_size chunk_overlap :
  (forall texts, exists d, shape (embed embedder texts) = [length texts; d]) ->
  aligned (store w) ->
  aligned (store (snd (add_documents as_float32 split documents embedder
                                     chunk_size chunk_overlap w))).
Proof.
  intros Hemb Hal.
  destruct (add_documents as_float32 split documents embedder chunk_size chunk_overlap w)
    as [[e|[]] w'] eqn:Hadd; cbn [snd].
  - apply add_documents_raise_world in Hadd. subst. exact Hal.
  - destruct (collect_chunks split documents chunk_size chunk_overlap) as [new|] eqn:Hc.
    2:{ unfold add_documents in Hadd. rewrite Hc in Hadd. discriminate. }
    destruct new as [|c0 new].
    { unfold add_documents in Hadd. rewrite Hc in Hadd. injection Hadd as <-. exact Hal. }
    destruct (Hemb (map content (c0 :: new))) as [d Hout]. rewrite length_map in Hout.
    destruct (_embeddings (store w)) as [cur|] eqn:He.
    + unfold aligned in Hal. rewrite He in Hal. destruct Hal as [dc Hcur].
      destruct (Nat.eq_dec d dc) as [<-|Hne].
      * rewrite (add_documents_stack_eq w documents embedder chunk_size chunk_overlap cur
                   _ d (c0 :: new) _ He Hcur Hc ltac:(discriminate) Hout) in Hadd.
        injection Hadd as <-. unfold aligned. cbn. exists d. rewrite length_app. reflexivity.
      * exfalso. unfold add_documents in Hadd. rewrite Hc in Hadd.
        cbv zeta in Hadd. unfold map_array at 1 in Hadd. cbn [shape] in Hadd.
        rewrite Hout in Hadd. cbn [length Nat.eqb negb] in Hadd.
        destruct w as [st dk]. cbn [store] in He.
        unfold bind, get_world, raise in Hadd. cbn [store fst snd] in Hadd.
        rewrite He in Hadd. unfold shape_at, map_array in Hadd. cbn [shape nth_error] in Hadd.
        rewrite Hout, Hcur in Hadd. cbn [nth_error] in Hadd.
        apply Nat.eqb_neq in Hne. rewrite Hne in Hadd. discriminate.
    + rewrite (add_documents_init_eq w documents embedder chunk_size chunk_overlap
                 (c0 :: new) _ d He Hc ltac:(discriminate) Hout) in Hadd.
      injection Hadd as <-. unfold aligned, map_array. cbn. exists d. exact Hout.
Qed.

Lemma chunks_of_document_spec chunk_size chunk_overlap d l :
  chunks_of_document split chunk_size chunk_overlap d = Some l ->
  exists texts,
    split (doc_content d) chunk_size chunk_overlap = Some texts /\
    map content l = texts /\
    map chunk_id l = Chunking.enumerate_chunks texts (doc_id d) /\
    Forall (fun c => document_id c = doc_id d /\ chunk_source c = doc_source d /\
                     metadata c = doc_metadata d) l.
Proof.
  unfold chunks_of_document.
  destruct (split (doc_content d) chunk_size chunk_overlap) as [texts|]; [|discriminate].
  intros H. injection H as <-. exists texts.
  assert (Hl : length (Chunking.enumerate_chunks texts (doc_id d)) = length texts)
    by apply length_enumerate_chunks.
  split; [reflexivity|]. split.
  { rewrite map_map. cbn [content]. apply map_snd_combine, Hl. }
  split.
  { rewrite map_map. cbn [chunk_id]. apply map_fst_combine, Hl. }
  apply Forall_forall. intros c Hc. apply in_map_iff in Hc as [ic [<- _]].
  split; [reflexivity|split; reflexivity].
Qed.

(** The chunks [add_documents] builds come document by document, in order:
    for each document, the texts [chunk_text] returns for its content, with
    the identifiers [enumerate_chunks(chunks, prefix=document.id)], and the
    document's id, source and metadata. *)
Theorem collect_chunks_provenance documents chunk_size chunk_overlap new :
  collect_chunks split documents chunk_size chunk_overlap = Some new ->
  exists per_doc,
    Forall2 (fun d p =>
      split (doc_content d) chunk_size chunk_overlap = Some (fst p) /\
      map content (snd p) = fst p /\
      map chunk_id (snd p) = Chunking.enumerate_chunks (fst p) (doc_id d) /\
      Forall (fun c => document_id c = doc_id d /\ chunk_source c = doc_source d /\
                       metadata c = doc_metadata d) (snd p)) documents per_doc /\
    new = concat (map snd per_doc).
Proof.
  unfold collect_chunks.
  destruct (map_option (chunks_of_document split chunk_size chunk_overlap) documents)
    as [ls|] eqn:Hm; [|discriminate].
  intros H. injection H as <-. apply map_option_Forall2 in Hm.
  induction Hm as [|d l docs ls Hd _ [per_doc [Hf Heq]]].
  - exists []. split; [constructor|reflexivity].
  - destruct (chunks_of_document_spec _ _ d l Hd) as [texts Hspec].
    exists ((texts, l) :: per_doc). split; [constructor; [exact Hspec|exact Hf]|].
    simpl. rewrite Heq. reflexivity.
Qed.

(** When the documents have pairwise distinct ids, the chunks of one
    [add_documents] call have pairwise distinct ids. *)
Theorem collect_chunks_unique_ids documents chunk_size chunk_overlap new :
  NoDup (map doc_id documents) ->
  collect_chunks split documents chunk_size chunk_overlap = Some new ->
  NoDup (map chunk_id new).
Proof.
  intros Hnd. unfold collect_chunks.
  destruct (map_option (chunks_of_document split chunk_size chunk_overlap) documents)
    as [ls|] eqn:Hm; [|discriminate].
  intros H. injection H as <-. apply map_option_Forall2 in Hm.
  induction Hm as [|d l docs ls Hd Hrest IH]; [constructor|].
  simpl in Hnd. inversion Hnd as [|? ? Hnin Hnd']; subst.
  destruct (chunks_of_document_spec _ _ d l Hd) as [texts [_ [_ [Hids _]]]].
  cbn [concat]. rewrite map_app. apply NoDup_app.
  - rewrite Hids. apply enumerate_chunks_NoDup.
  - apply IH, Hnd'.
  - intros x Hx Hx'. rewrite Hids in Hx.
    destruct (enumerate_chunks_form _ _ _ Hx) as [s [-> Hs]].
    apply in_map_iff in Hx' as [c [Hcx Hc]]. apply in_concat in Hc as [l' [Hl' Hc]].
    destruct (SearchFacts.Forall2_In_r _ _ _ l' Hrest Hl') as [d' [Hd'in Hd']].
    destruct (chunks_of_document_spec _ _ d' l' Hd') as [texts' [_ [_ [Hids' _]]]].
    assert (Hin : In (chunk_id c) (Chunking.enumerate_chunks texts' (doc_id d'))).
    { rewrite <- Hids'. apply in_map, Hc. }
    destruct (enumerate_chunks_form _ _ _ Hin) as [s' [Hs'eq Hs']].
    rewrite Hcx in Hs'eq. apply dash_prefix_inj in Hs'eq; [|exact Hs|exact Hs'].
    apply Hnin. rewrite Hs'eq. apply in_map, Hd'in.
Qed.

End AddExtra.

Lemma collect_chunks_empty_contents (split : pystr -> Z -> Z -> option (list pystr))
  documents chunk_size chunk_overlap :
  split [] chunk_size chunk_overlap = Some [] ->
  Forall (fun d => doc_content d = []) documents ->
  collect_chunks split documents chunk_size chunk_overlap = Some [].
Proof.
  intros Hsplit. unfold collect_chunks. induction 1 as [|d docs Hd _ IH]; [reflexivity|].
  cbn [map_option]. unfold chunks_of_document at 1. rewrite Hd, Hsplit.
  destruct (map_option _ docs) as [ls|]; [|discriminate].
  injection IH as IH. cbn [Chunking.enumerate_chunks combine map concat]. rewrite IH.
  reflexivity.
Qed.

(** With a splitter that returns no chunk for the empty text (as
    [chunk_text] does with or without [tiktoken]), documents whose contents
    are all empty give no chunk: [add_documents] returns without calling the
    embedder and leaves the store and the disk as they were. *)
Theorem add_documents_empty_contents {F} (as_float32 : F -> F)
  (split : pystr -> Z -> Z -> option (list pystr)) (w : World F) documents
  embedder chunk_size chunk_overlap :
  split [] chunk_size chunk_overlap = Some [] ->
  Forall (fun d => doc_content d = []) documents ->
  add_documents as_float32 split documents embedder chunk_size chunk_overlap w = (inr tt, w).
Proof.
  intros Hsplit H. unfold add_documents.
  rewrite (collect_chunks_empty_contents split documents chunk_size chunk_overlap Hsplit H).
  reflexivity.
Qed.

Lemma add_documents_atomic_witness :
  exists e w', add_documents (fun x : nat => x) Chunking.chunk_text [demo_doc] demo_embedder_wide
                 4 1 demo_world1 = (inl e, w') /\ w' = demo_world1.
Proof.
  exists ValueError_dimension_mismatch, demo_world1.
  assert (H : add_documents (fun x : nat => x) Chunking.chunk_text [demo_doc] demo_embedder_wide
                4 1 demo_world1 = (inl ValueError_dimension_mismatch, demo_world1))
    by (vm_compute; reflexivity).
  split; [exact H|]. exact (add_documents_atomic (fun x : nat => x) Chunking.chunk_text
                              demo_world1 [demo_doc] demo_embedder_wide 4 1 _ _ H).
Defined.

Lemma add_documents_append_witness :
  exists w', add_documents (fun x : nat => x) Chunking.chunk_text [demo_doc] demo_embedder
               4 1 demo_world1 = (inr tt, w') /\ chunk_count (store w') = 8%nat.
Proof.
  destruct (collect_chunks Chunking.chunk_text [demo_doc] 4 1) as [new|] eqn:Hc;
    [|vm_compute in Hc; discriminate].
  pose proof (add_documents_append (fun x : nat => x) Chunking.chunk_text demo_world1
               [demo_doc] demo_embedder 4 1 (mkArray [4%nat; 1%nat] [1%nat; 1%nat; 1%nat; 1%nat])
               4%nat 1%nat new 4%nat) as H.
  eexists. split.
  - apply H.
    + vm_compute. reflexivity.
    + reflexivity.
    + exact Hc.
    + vm_compute in Hc. injection Hc as <-. discriminate.
    + vm_compute in Hc. injection Hc as <-. reflexivity.
  - vm_compute in Hc. injection Hc as <-. vm_compute. reflexivity.
Defined.

Lemma add_documents_first_witness :
  exists w', add_documents (fun x : nat => x) Chunking.chunk_text [demo_doc] demo_embedder
               4 1 demo_world0 = (inr tt, w') /\ chunk_count (store w') = 4%nat.
Proof.
  destruct (collect_chunks Chunking.chunk_text [demo_doc] 4 1) as [new|] eqn:Hc;
    [|vm_compute in Hc; discriminate].
  pose proof (add_documents_first (fun x : nat => x) Chunking.chunk_text demo_world0
               [demo_doc] demo_embedder 4 1 new 4%nat 1%nat) as H.
  eexists. split.
  - apply H.
    + reflexivity.
    + exact Hc.
    + vm_compute in Hc. injection Hc as <-. discriminate.
    + vm_compute in Hc. injection Hc as <-. reflexivity.
  - vm_compute in Hc. injection Hc as <-. vm_compute. reflexivity.
Defined.

Lemma add_documents_counts_witness :
  exists r d, embedding_dimension (store demo_world1) = inr (Some d) /\
    chunk_count (store demo_world1) = 4%nat /\ r = 4%nat.
Proof.
  destruct (collect_chunks Chunking.chunk_text [demo_doc] 4 1) as [new|] eqn:Hc;
    [|vm_compute in Hc; discriminate].
  destruct (add_documents_counts (fun x : nat => x) Chunking.chunk_text demo_world0 [demo_doc]
              demo_embedder 4 1 new demo_world1 Hc) as [r [d [Hs [Hd [Hn _]]]]].
  - vm_compute in Hc. injection Hc as <-. discriminate.
  - vm_compute. reflexivity.
  - exists r, d. split; [exact Hd|]. split.
    + rewrite Hn. vm_compute in Hc. injection Hc as <-. reflexivity.
    + vm_compute in Hc. injection Hc as <-. vm_compute in Hs. injection Hs as <- _. reflexivity.
Defined.

Lemma add_documents_aligned_witness : aligned (store demo_world1).
Proof.
  apply (add_documents_aligned (fun x : nat => x) Chunking.chunk_text demo_world0 [demo_doc]
           demo_embedder 4 1).
  - intros texts. exists 1%nat. reflexivity.
  - reflexivity.
Defined.

Lemma collect_chunks_provenance_witness :
  exists new (per_doc : list (list pystr * list DocumentChunk)),
    collect_chunks Chunking.chunk_text [demo_doc; demo_doc2] 4 1 = Some new /\
    new = concat (map snd per_doc) /\ length per_doc = 2%nat.
Proof.
  destruct (collect_chunks Chunking.chunk_text [demo_doc; demo_doc2] 4 1) as [new|] eqn:Hc;
    [|vm_compute in Hc; discriminate].
  destruct (collect_chunks_provenance Chunking.chunk_text [demo_doc; demo_doc2] 4 1 new Hc)
    as [per_doc [Hf Heq]].
  exists new, per_doc. split; [reflexivity|]. split; [exact Heq|].
  apply Forall2_length in Hf. rewrite <- Hf. reflexivity.
Defined.

Lemma collect_chunks_unique_ids_witness :
  exists new, collect_chunks Chunking.chunk_text [demo_doc; demo_doc2] 4 1 = Some new /\
    NoDup (map chunk_id new) /\ length new = 6%nat.
Proof.
  destruct (collect_chunks Chunking.chunk_text [demo_doc; demo_doc2] 4 1) as [new|] eqn:Hc;
    [|vm_compute in Hc; discriminate].
  exists new. split; [reflexivity|]. split.
  - apply (collect_chunks_unique_ids Chunking.chunk_text [demo_doc; demo_doc2] 4 1 new).
    + constructor; [vm_compute; intros [H|[]]; discriminate H|constructor; [intros []|constructor]].
    + exact Hc.
  - vm_compute in Hc. injection Hc as <-. reflexivity.
Defined.

Lemma add_documents_empty_contents_witness :
  add_documents (fun x : nat => x)
    (Chunking.chunk_text_tk (Some (Some (Chunking.mkEncoding (fun t => Some t) (fun t => t)))))
    [demo_empty_doc; demo_empty_doc] demo_embedder 4 1 demo_world1 = (inr tt, demo_world1).
Proof.
  apply add_documents_empty_contents; [reflexivity|]. repeat constructor.
Defined.

End StoreExtra.

Module SearchExtra.
Import Models Store Search SearchFacts.

Lemma map_option_length {A B} (f : A -> option B) l l' :
  map_option f l = Some l' -> length l' = length l.
Proof. intros H. symmetry. exact (Forall2_length' _ _ _ (StoreFacts.map_option_Forall2 f l l' H)). Qed.

Lemma map_option_In_None {A B} (f : A -> option B) l x :
  In x l -> f x = None -> map_option f l = None.
Proof.
  induction l as [|y l IH]; intros Hin Hx; [destruct Hin|]. simpl.
  destruct Hin as [->|Hin]; [rewrite Hx; reflexivity|].
  rewrite (IH Hin Hx). destruct (f y); reflexivity.
Qed.

Lemma map_option_In_Some {A B} (f : A -> option B) l l' x :
  map_option f l = Some l' -> In x l -> exists y, f x = Some y.
Proof.
  revert l'. induction l as [|a l IH]; intros l' H Hin; [destruct Hin|]. simpl in H.
  destruct (f a) as [y|] eqn:Ha, (map_option f l) as [ys|] eqn:Hl; try discriminate.
  destruct Hin as [<-|Hin]; [exists y; exact Ha|]. exact (IH ys eq_refl Hin).
Qed.

(** The shape of a successful [search] on a store with chunks: the
    ranking [argsort()[::-1][:top_k]] of the similarities mapped to results. *)
Lemma search_inr_inv K as_float32 st query embedder top_k results :
  search K as_float32 st query embedder top_k = inr results ->
  results = [] \/
  exists chunks doc_vectors r c,
    _chunks st = chunks /\ chunks <> [] /\ _embeddings st = Some doc_vectors /\
    shape doc_vectors = [r; c] /\
    let q := firstn c (data (map_array as_float32 (embed embedder [query]))) in
    let sims := similarities K doc_vectors q r in
    map_option (fun idx => option_map (fun ch => @mkSearchResult f32 ch (nth idx sims zero32))
                                      (nth_error chunks idx))
               (py_take top_k (rev (argsort sims))) = Some results.
Proof.
  unfold search. destruct (_chunks st) as [|ch0 chs] eqn:Hc.
  { intros H. injection H as <-. left. reflexivity. }
  destruct (_embeddings st) as [dv|] eqn:He; [|intros H; injection H as <-; left; reflexivity].
  cbv zeta. destruct (shape (map_array as_float32 (embed embedder [query]))) as [|[|[|]] [|c [|]]];
    try discriminate.
  destruct (shape dv) as [|r [|c' [|]]] eqn:Hs; try discriminate.
  destruct (Nat.eqb_spec c' c) as [->|]; [|discriminate].
  destruct (map_option _ _) as [res|] eqn:Hm; [|discriminate].
  intros H. injection H as <-. right.
  exists (ch0 :: chs), dv, r, c. split; [reflexivity|]. split; [discriminate|].
  split; [reflexivity|]. split; [exact Hs|]. exact Hm.
Qed.

Lemma search_result_count_le K as_float32 st query embedder top_k results :
  search K as_float32 st query embedder top_k = inr results ->
  ((0 <= top_k)%Z -> (length results <= Z.to_nat top_k)%nat) /\
  (length results <= length (_chunks st))%nat.
Proof.
  intros H. destruct (search_inr_inv _ _ _ _ _ _ _ H) as [->|[chunks [dv [r [c Hx]]]]];
    [simpl; split; [intros; lia|lia]|].
  destruct Hx as [Hc [Hne [He [Hs Hm]]]]. cbv zeta in Hm.
  set (sims := similarities K dv _ r) in Hm.
  set (rk := rev (argsort sims)) in Hm.
  pose proof (map_option_length _ _ _ Hm) as Hl.
  rewrite py_take_firstn in Hm, Hl.
  set (m := Z.to_nat (py_clamp (Z.of_nat (length rk)) top_k)) in Hm, Hl.
  split.
  - intros Hk. rewrite Hl, length_firstn. unfold m, py_clamp.
    destruct (Z.ltb_spec top_k 0); lia.
  - rewrite Hl. apply (Nat.le_trans _ (length (seq 0 (length (_chunks st))))); [|rewrite length_seq; lia].
    apply NoDup_incl_length; [apply NoDup_firstn, ranking_NoDup|].
    intros i Hi. apply in_seq.
    destruct (map_option_In_Some _ _ _ i Hm Hi) as [res Hres].
    rewrite <- Hc in Hres.
    destruct (nth_error (_chunks st) i) eqn:Hi'; [|discriminate].
    split; [lia|]. simpl. apply nth_error_Some. congruence.
Qed.

(** On a store whose matrix has more rows than there are chunks (the
    artifacts [_load] accepts without comparing them), a [top_k] of at least
    the row count makes [search] raise [IndexError]. *)
Theorem search_extra_rows_index_error K as_float32 st query embedder top_k emb r c :
  _chunks st <> [] -> _embeddings st = Some emb -> shape emb = [r; c] ->
  (length (_chunks st) < r)%nat -> shape (embed embedder [query]) = [1%nat; c] ->
  (Z.of_nat r <= top_k)%Z ->
  search K as_float32 st query embedder top_k = inl IndexError.
Proof.
  intros Hne Hemb He Hr Hq Hk. unfold search.
  destruct (_chunks st) as [|ch0 chs] eqn:Hc; [congruence|]. rewrite Hemb.
  cbv zeta. unfold map_array. cbn [shape data]. rewrite Hq, He, Nat.eqb_refl.
  set (q := firstn c (map as_float32 (data (embed embedder [query])))).
  set (sims := similarities K emb q r).
  rewrite (map_option_In_None _ _ (length (ch0 :: chs))); [reflexivity| |].
  - rewrite py_take_firstn, ranking_length. unfold sims. rewrite similarities_length.
    replace (Z.to_nat (py_clamp (Z.of_nat r) top_k)) with r
      by (unfold py_clamp; destruct (Z.ltb_spec top_k 0); lia).
    replace r with (length (rev (argsort sims))) at 1
      by (rewrite ranking_length; unfold sims; apply similarities_length).
    rewrite firstn_all. apply ranking_In. unfold sims. rewrite similarities_length. exact Hr.
  - rewrite (proj2 (nth_error_None (ch0 :: chs) (length (ch0 :: chs))) (Nat.le_refl _)).
    reflexivity.
Qed.

(** [search] never returns more than [top_k] results ([top_k >= 0]), nor
    more results than the store has chunks, whatever the matrix holds. *)
Theorem search_result_count K as_float32 st query embedder top_k results :
  search K as_float32 st query embedder top_k = inr results ->
  ((0 <= top_k)%Z -> (length results <= Z.to_nat top_k)%nat) /\
  (length results <= length (_chunks st))%nat.
Proof. apply search_result_count_le. Qed.

Lemma search_result_count_witness :
  exists results, search seq_kernels (fun x => x) tie_store [] query_embedder 1 = inr results /\
    (length results <= Z.to_nat 1)%nat /\ (length results <= 2)%nat.
Proof.
  destruct (search_facts seq_kernels (fun x => x) tie_store [] query_embedder 1%Z
              (mkArray [2%nat; 2%nat] [one32; zero32; one32; zero32]) 2%nat) as [idxs [results [Hs _]]];
    [discriminate|reflexivity|reflexivity|reflexivity|].
  exists results. split; [exact Hs|].
  destruct (search_result_count seq_kernels (fun x => x) tie_store [] query_embedder 1%Z results Hs) as [H1 H2].
  split; [apply H1; lia|exact H2].
Defined.

Lemma search_extra_rows_index_error_witness :
  search seq_kernels (fun x => x)
    (mkStore [chunk_a] (Some (mkArray [2%nat; 2%nat] [one32; zero32; one32; zero32])) None)
    [] query_embedder 2 = inl IndexError.
Proof.
  apply (search_extra_rows_index_error _ _ _ _ _ _
           (mkArray [2%nat; 2%nat] [one32; zero32; one32; zero32]) 2%nat 2%nat).
  - discriminate.
  - reflexivity.
  - reflexivity.
  - simpl. lia.
  - reflexivity.
  - lia.
Defined.

End SearchExtra.

Module EngineExtra.
Import Models Store Search Engine.

Lemma build_context_nil_iff results : _build_context results = [] <-> results = [].
Proof.
  split; [|intros ->; reflexivity].
  destruct results as [|r rs]; [reflexivity|].
  unfold _build_context. cbn [segments py_join].
  destruct (segments (1 + 1) rs); unfold segment; simpl; discriminate.
Qed.

(** [ask] answers with the fallback text and no reference, without calling
    the chat model, exactly when [search] finds nothing; when it finds
    results, the context built from them is not empty, the model is called
    once on the system prompt and that context, and every result is
    returned as a reference; an exception of [search] propagates. *)
Theorem ask_model_called_iff_results K as_float32 st embedder system_prompt question top_k :
  (forall generate, search K as_float32 st question embedder top_k = inr [] ->
     ask K as_float32 st embedder generate system_prompt question top_k =
       inr (mkChatResponse fallback_answer [])) /\
  (forall generate results, search K as_float32 st question embedder top_k = inr results ->
     results <> [] ->
     let context := _build_context results in
     context <> [] /\
     ask K as_float32 st embedder generate system_prompt question top_k =
       inr (mkChatResponse
              (generate [mkMessage (lit "system") system_prompt;
                         mkMessage (lit "user") (lit "Context:" ++ nl ++ context ++ nl ++ nl ++
                                                 lit "Question: " ++ question ++ nl)])
              results)) /\
  (forall generate e, search K as_float32 st question embedder top_k = inl e ->
     ask K as_float32 st embedder generate system_prompt question top_k = inl e).
Proof.
  split; [|split].
  - intros generate Hs. unfold ask. rewrite Hs. reflexivity.
  - intros generate results Hs Hne context.
    assert (Hc : context <> []) by (unfold context; rewrite build_context_nil_iff; exact Hne).
    split; [exact Hc|]. unfold ask. rewrite Hs. cbv zeta. fold context.
    destruct context as [|c ctx]; [congruence|]. reflexivity.
  - intros generate e Hs. unfold ask. rewrite Hs. reflexivity.
Qed.

Lemma ask_model_called_iff_results_witness :
  ask seq_kernels (fun x => x) (@mkStore f32 [] None None) query_embedder (fun _ => []) []
    (lit "hi") 5 =
    inr (mkChatResponse fallback_answer []).
Proof.
  apply (proj1 (ask_model_called_iff_results seq_kernels (fun x => x) (@mkStore f32 [] None None)
                  query_embedder [] (lit "hi") 5)).
  reflexivity.
Defined.

End EngineExtra.

Module WebExtra.
Import Models Store Search Engine Web.

Lemma lstrip_nil_iff s : lstrip s = [] <-> Forall (fun c => is_py_space c = true) s.
Proof.
  induction s as [|c s IH]; simpl; [split; [constructor|reflexivity]|].
  destruct (is_py_space c) eqn:Hc.
  - rewrite IH. split; [intros H; constructor; assumption|intros H; inversion H; assumption].
  - split; [discriminate|intros H; inversion H; congruence].
Qed.

Lemma lstrip_head s :
  lstrip s = [] \/ exists c s', lstrip s = c :: s' /\ is_py_space c = false.
Proof.
  induction s as [|c s IH]; simpl; [left; reflexivity|].
  destruct (is_py_space c) eqn:Hc; [exact IH|right; exists c, s; split; [reflexivity|exact Hc]].
Qed.

Lemma Forall_rev_iff {A} (P : A -> Prop) l : Forall P (rev l) <-> Forall P l.
Proof. rewrite !Forall_forall. split; intros H x Hx; apply H; [rewrite <- in_rev|rewrite in_rev]; exact Hx. Qed.

(** [s.strip()] is empty exactly when every character of [s] is
    whitespace. *)
Lemma py_strip_nil_iff s : py_strip s = [] <-> Forall (fun c => is_py_space c = true) s.
Proof.
  unfold py_strip. split.
  - intros H. apply (f_equal (@rev nat)) in H. rewrite rev_involutive in H. simpl in H.
    apply lstrip_nil_iff, Forall_rev_iff in H.
    destruct (lstrip_head s) as [Hn|[c [s' [Hs Hc]]]]; [apply lstrip_nil_iff, Hn|].
    rewrite Hs, rev_involutive in H. apply Forall_inv in H. cbv beta in H. congruence.
  - intros H. apply lstrip_nil_iff in H. rewrite H. reflexivity.
Qed.

(** A request whose [top_k] passes validation is refused with 400 exactly
    when its question is made of whitespace only (the empty question
    included); the engine is then not consulted. *)
Theorem chat_endpoint_blank_question K as_float32 st embedder generate system_prompt
  default_top_k question payload_top_k :
  chat_request_valid payload_top_k = true ->
  (chat_endpoint K as_float32 st embedder generate system_prompt default_top_k question
     payload_top_k = HTTP400 <-> Forall (fun c => is_py_space c = true) question).
Proof.
  intros Hv. unfold chat_endpoint. rewrite Hv. cbn [negb]. cbv zeta.
  rewrite <- py_strip_nil_iff.
  destruct (py_strip question) as [|c q]; [split; reflexivity|].
  split; [|discriminate].
  destruct (ask _ _ _ _ _ _ _ _) as [e|resp]; [discriminate|].
  destruct (map_option _ _); discriminate.
Qed.

(** The endpoint never returns more references than the [top_k] it was
    given ([1 <= top_k <= 20] by validation), nor, without one, more than a
    non-negative [default_top_k]. *)
Theorem chat_endpoint_reference_count K as_float32 st embedder generate system_prompt
  default_top_k question payload_top_k ans refs :
  chat_endpoint K as_float32 st embedder generate system_prompt default_top_k question
    payload_top_k = OK ans refs ->
  (forall k, payload_top_k = Some k -> (length refs <= Z.to_nat k <= 20)%nat) /\
  (payload_top_k = None -> (0 <= default_top_k)%Z ->
     (length refs <= Z.to_nat default_top_k)%nat).
Proof.
  unfold chat_endpoint. destruct (chat_request_valid payload_top_k) eqn:Hv; [|discriminate].
  cbn [negb]. cbv zeta. destruct (py_strip question) as [|c q]; [discriminate|].
  set (top_k := match payload_top_k with
                | Some k => if (k =? 0)%Z then default_top_k else k
                | None => default_top_k end).
  unfold ask. destruct (search K as_float32 st (c :: q) embedder top_k) as [e|results] eqn:Hs;
    [discriminate|].
  intros Heq.
  assert (Hlen : (0 <= top_k)%Z -> (length refs <= Z.to_nat top_k)%nat).
  { cbv zeta in Heq. destruct (_build_context results) as [|x ctx].
    - cbn [references map_option] in Heq. injection Heq as _ <-. simpl. lia.
    - cbn [references] in Heq.
      destruct (map_option reference_payload results) as [refs'|] eqn:Hm; [|discriminate].
      injection Heq as _ <-.
      rewrite (SearchExtra.map_option_length _ _ _ Hm).
      exact (proj1 (SearchExtra.search_result_count_le _ _ _ _ _ _ _ Hs)). }
  split.
  - intros k Hk. subst payload_top_k. cbn in Hv.
    apply andb_prop in Hv as [H1 H2]. apply Z.leb_le in H1, H2.
    unfold top_k in Hlen. replace (k =? 0)%Z with false in Hlen by (symmetry; apply Z.eqb_neq; lia).
    split; [apply Hlen; lia|lia].
  - intros Hn Hd. subst payload_top_k. exact (Hlen Hd).
Qed.

Lemma chat_endpoint_blank_question_witness :
  chat_endpoint seq_kernels (fun x => x) tie_store query_embedder (fun _ => []) [] 5 [32%nat; 9%nat; 160%nat]
    (Some 3%Z) = HTTP400.
Proof.
  apply (chat_endpoint_blank_question seq_kernels (fun x => x) tie_store query_embedder (fun _ => []) [] 5
           [32%nat; 9%nat; 160%nat] (Some 3%Z)); [reflexivity|].
  repeat constructor.
Defined.

Lemma chat_endpoint_reference_count_witness :
  chat_endpoint seq_kernels (fun x => x) (@mkStore f32 [] None None) query_embedder (fun _ => []) [] 5
    (lit " hi ") (Some 3%Z) = OK fallback_answer [] /\
  (length (@nil ReferencePayload) <= Z.to_nat 3 <= 20)%nat.
Proof.
  assert (H : chat_endpoint seq_kernels (fun x => x) (@mkStore f32 [] None None) query_embedder (fun _ => []) []
                5 (lit " hi ") (Some 3%Z) = OK fallback_answer []) by reflexivity.
  split; [exact H|].
  exact (proj1 (chat_endpoint_reference_count _ _ _ _ _ _ _ _ _ _ _ H) 3%Z eq_refl).
Defined.

End WebExtra.

